(** * DexScreener new-token tracker

    A shallow embedding of [check_new_tokens] and [main] from
    "DeX Screener New Token Filtering Algorythm.py", and the properties of
    the classification and of the seen-pair tracking.

    Modelling choices.
    - A decoded JSON document is a [value]: Python's None, bool, number,
      str, list and dict (string keys).
    - A number is the rational it denotes ([Qc]): a whole number stands
      for a Python int, any other for a Python float, which is then a
      binary64 value.  Comparisons are exact, as Python's are between ints
      and floats.  Python's [/] is [truediv]: the quotient rounded to the
      nearest binary64 value, ties to even, OverflowError beyond the
      range; an int is rounded the same way when it meets a float or is
      formatted with [:,.2f].  Left out: a float with a whole value
      (5.0 is taken for 5), the sum of float counts (exact here, rounded
      in Python) and Python's inf (the quotient of floats beyond the
      range raises here).
    - Exceptions are explicit: every Python operation that can raise
      returns a [result], and the body of the function runs in a state and
      exception monad [M] whose state holds the module-level set
      [tracked_pairs] and the lines printed so far.
    - What the provider answers ([requests.get], [raise_for_status],
      [response.json]) is an input of the model: a [fetch].
    - A printed report is kept as the values it is formatted from; the
      text formatting and the time stamp are not modelled.  Writing the
      report can fail on the way: on a token name, symbol or address that
      [sys.stdout] cannot encode (which texts it can encode is a
      parameter, [stdout_encodes]) and on a liquidity that does not
      format as a float; the lines written before are kept.  The other
      lines printed are ASCII and are taken to be written.
    - In [check_new_tokens] and [main] an interrupt of the user is an
      exception of the fetch, where the program waits.  Their versions
      under a clock, [check_new_tokens_i] and [main_i], let it arrive
      before any statement.
    - The pause between two polls is a statement under the clock only.
      The non-finite floats that Python's JSON decoder also accepts (NaN,
      Infinity) are not modelled.  An int with more digits than the limit
      that recent Pythons put on the conversion between int and str
      (4300) is written like any other: the decoder, which is under the
      same limit, does not yield one. *)

From Stdlib Require Import QArith Qabs Qcanon String.
From Stdlib Require Qcabs.
From stdpp Require Import base decidable countable gmap strings list numbers.
Import ListNotations.

#[local] Set Warnings "-clear-no-such-hyp".

Local Open Scope string_scope.
Local Open Scope Qc_scope.

(** ** Python values and the operations the function uses *)

Module Py.

#[local] Set Warnings "-register-all".

Inductive value : Type :=
| VNone
| VBool (b : bool)
| VNum (q : Qc)
| VStr (s : string)
| VList (l : list value)
| VDict (d : gmap string value).

(** Exception classes that can reach the two [except] clauses.  The first
    four derive from [requests.exceptions.RequestException]; the next
    seven are builtins deriving from [Exception]; [KeyboardInterrupt]
    derives from [BaseException] only. *)
Inductive exn : Type :=
| ConnectionError | Timeout | HTTPError | JSONDecodeError
| KeyError | TypeError | AttributeError | ValueError
| OverflowError | ZeroDivisionError | UnicodeEncodeError
| KeyboardInterrupt.

Definition is_RequestException (e : exn) : bool :=
  match e with
  | ConnectionError | Timeout | HTTPError | JSONDecodeError => true
  | _ => false
  end.

Definition is_Exception (e : exn) : bool :=
  match e with
  | KeyboardInterrupt => false
  | _ => true
  end.

Inductive result (A : Type) : Type :=
| Ok (a : A)
| Raise (e : exn).
Arguments Ok {A} a.
Arguments Raise {A} e.

#[global] Instance result_ret : MRet result := fun A a => Ok a.
#[global] Instance result_bind : MBind result := fun A B f r =>
  match r with
  | Ok a => f a
  | Raise e => Raise e
  end.

(** [not v] is [negb (truthy v)]. *)
Definition truthy (v : value) : bool :=
  match v with
  | VNone => false
  | VBool b => b
  | VNum q => negb (bool_decide (q = 0))
  | VStr s => negb (bool_decide (s = ""))
  | VList l => negb (bool_decide (length l = 0%nat))
  | VDict d => negb (bool_decide (size d = 0%nat))
  end.

(** [v[key]] for a str key. *)
Definition getitem (v : value) (key : string) : result value :=
  match v with
  | VDict d =>
      match d !! key with
      | Some x => Ok x
      | None => Raise KeyError
      end
  | _ => Raise TypeError
  end.

(** [v.get(key, default)]: only a dict has the method. *)
Definition get (v : value) (key : string) (dflt : value) : result value :=
  match v with
  | VDict d => Ok (default dflt (d !! key))
  | _ => Raise AttributeError
  end.

Definition is_str (key : string) (v : value) : bool :=
  match v with
  | VStr s => bool_decide (s = key)
  | _ => false
  end.

(** [key in v] for a str key: key membership in a dict, element
    membership in a list, substring test in a str. *)
Definition contains (key : string) (v : value) : result bool :=
  match v with
  | VDict d => Ok (bool_decide (is_Some (d !! key)))
  | VList l => Ok (existsb (is_str key) l)
  | VStr s => Ok (bool_decide (is_Some (String.index 0 key s)))
  | _ => Raise TypeError
  end.

(** The values a [for] loop draws from [v]. *)
Definition iter (v : value) : result (list value) :=
  match v with
  | VList l => Ok l
  | VDict d => Ok (VStr <$> (map_to_list d).*1)
  | VStr s =>
    Ok ((fun a => VStr (String a EmptyString)) <$> list_ascii_of_string s)
  | _ => Raise TypeError
  end.

(** The number an arithmetic operator or an order comparison reads from
    [v]; bool is a subclass of int. *)
Definition as_number (v : value) : result Qc :=
  match v with
  | VNum q => Ok q
  | VBool true => Ok 1
  | VBool false => Ok 0
  | _ => Raise TypeError
  end.

(** *** Floats

    A positive rational n/d is rounded to binary64 in three steps: the
    exponent [e] of the unit in the last place, which is
    [floor (log2 (n/d)) - 52] and at least -1074 (subnormal numbers); the
    integer nearest to [n/d / 2^e], ties to even; the overflow test. *)

Definition floor_log2 (n d : positive) : Z :=
  let k := (Z.log2 (Zpos n) - Z.log2 (Zpos d))%Z in
  if (0 <=? k)%Z
  then (if (Zpos d * 2 ^ k <=? Zpos n)%Z then k else k - 1)%Z
  else (if (Zpos d <=? Zpos n * 2 ^ (- k))%Z then k else k - 1)%Z.

(** The integer nearest to N/D, for D > 0. *)
Definition round_half_even (N D : Z) : Z :=
  let m := (N / D)%Z in
  match (2 * (N mod D) ?= D)%Z with
  | Lt => m
  | Gt => (m + 1)%Z
  | Eq => if Z.even m then m else (m + 1)%Z
  end.

(** Mantissa and exponent of the binary64 value nearest to n/d. *)
Definition round64_pos (n d : positive) : Z * Z :=
  let e := Z.max (floor_log2 n d - 52) (-1074) in
  let m := if (e <=? 0)%Z
           then round_half_even (Zpos n * 2 ^ (- e)) (Zpos d)
           else round_half_even (Zpos n) (Zpos d * 2 ^ e) in
  (m, e).

(** m * 2^e *)
Definition scale2 (m e : Z) : Q :=
  if (0 <=? e)%Z then inject_Z (m * 2 ^ e)
  else Qmake m (Z.to_pos (2 ^ (- e))).

Definition overflows (m e : Z) : bool :=
  (0 <=? e)%Z && (2 ^ 1024 <=? m * 2 ^ e)%Z.

(** [float(q)] for an int [q], and what a float operation rounds its exact
    result [q] to. *)
Definition round64 (q : Qc) : result Qc :=
  match Qnum q with
  | Z0 => Ok q
  | Zpos n =>
      let '(m, e) := round64_pos n (Qden q) in
      if overflows m e then Raise OverflowError else Ok (Q2Qc (scale2 m e))
  | Zneg n =>
      let '(m, e) := round64_pos n (Qden q) in
      if overflows m e then Raise OverflowError
      else Ok (- Q2Qc (scale2 m e))
  end.

(** A whole number: a Python int (bool included). *)
Definition integral (q : Qc) : bool := (Qden q =? 1)%positive.

(** [a / b].  The quotient of two ints is rounded once; an int that meets
    a float is first converted to a float. *)
Definition truediv (a b : Qc) : result Qc :=
  if integral a && integral b then
    if bool_decide (b = 0) then Raise ZeroDivisionError
    else round64 (a / b)
  else
    fa ← round64 a;
    fb ← round64 b;
    if bool_decide (fb = 0) then Raise ZeroDivisionError
    else round64 (fa / fb).

(** Whether [f"{q:,.2f}"] goes through: an int is converted to a float
    first, which raises OverflowError when it is too large. *)
Definition formats_as_float (q : Qc) : bool :=
  if integral q then
    match round64 q with
    | Ok _ => true
    | Raise _ => false
    end
  else true.

(** Set elements: hashable values up to Python's [==], under which
    [True == 1] and [False == 0]. *)
Inductive hashable : Type :=
| HNone
| HNum (q : Qc)
| HStr (s : string).

#[global] Instance hashable_eq_dec : EqDecision hashable.
Proof. solve_decision. Defined.

#[global] Instance hashable_countable : Countable hashable.
Proof.
  refine (inj_countable'
    (fun h => match h with
              | HNone => inl tt
              | HNum q => inr (inl q)
              | HStr s => inr (inr s)
              end)
    (fun x => match x with
              | inl _ => HNone
              | inr (inl q) => HNum q
              | inr (inr s) => HStr s
              end) _).
  by intros [].
Defined.

(** [hash(v)]: lists and dicts are unhashable. *)
Definition to_hashable (v : value) : result hashable :=
  match v with
  | VNone => Ok HNone
  | VBool true => Ok (HNum 1)
  | VBool false => Ok (HNum 0)
  | VNum q => Ok (HNum q)
  | VStr s => Ok (HStr s)
  | VList _ | VDict _ => Raise TypeError
  end.

End Py.
Import Py.

(** ** Configuration (lines 12-32)

    [CHECK_INTERVAL_SECONDS] and [CHAIN_ID] only set the pause between two
    polls and the URL; the four thresholds below are what the analysis
    reads.  With them goes the one setting of the process that the
    function depends on beside them: which values [sys.stdout], with the
    encoding it was opened with, can write ([print] raises
    UnicodeEncodeError on the others). *)

Record config : Type := Config {
  MIN_LIQUIDITY_USD : Qc;
  MIN_TXNS_M5 : Qc;
  BUY_SELL_RATIO_MIN : Qc;
  BUY_SELL_RATIO_MAX : Qc;
  stdout_encodes : value -> bool
}.

(** The float literal [0.1]: the binary64 value nearest to 1/10. *)
Definition float_0_1 : Qc := Q2Qc (3602879701896397 # 36028797018963968).

(** The values of lines 20-32, on a console that writes every text. *)
Definition default_config : config :=
  {| MIN_LIQUIDITY_USD := Q2Qc 5000;
     MIN_TXNS_M5 := Q2Qc 10;
     BUY_SELL_RATIO_MIN := float_0_1;
     BUY_SELL_RATIO_MAX := Q2Qc 10;
     stdout_encodes := fun _ => true |}.

(** ** What is printed *)

(** The three f-strings appended to [reasons], each with the values it
    formats. *)
Inductive reason : Type :=
| LowLiquidity (liquidity_usd min_liquidity_usd : Qc)
| LowVolume (total min_txns_m5 : Qc)
| UnbalancedRatio (buy_sell_ratio : Qc).

#[global] Instance reason_eq_dec : EqDecision reason.
Proof. solve_decision. Defined.

(** The local variables printed at lines 104-116. *)
Record report : Type := Report {
  is_trustworthy : bool;
  base_token_name : value;
  base_token_symbol : value;
  pair_address : value;
  liquidity_usd : Qc;
  buys_m5 : Qc;
  sells_m5 : Qc;
  buy_sell_ratio : Qc;
  reasons : list reason
}.

Inductive line : Type :=
| NoNewPairs                          (* line 58 *)
| NewToken (r : report)               (* lines 104-116 *)
| Unfinished (r : report) (n : nat)   (* the first n lines of 104-116 *)
| ErrorFetching (e : exn)             (* line 119 *)
| UnexpectedError (e : exn)           (* line 121 *)
| Started                             (* lines 128-131 *)
| Stopped.                            (* line 141 *)

(** ** Program state and the monad of the function body *)

Record state : Type := State {
  tracked_pairs : gset hashable;
  stdout : list line
}.

Definition M (A : Type) : Type := state -> state * result A.

Definition ret {A} (a : A) : M A := fun s => (s, Ok a).

Definition bind {A B} (m : M A) (f : A -> M B) : M B := fun s =>
  match m s with
  | (s', Ok a) => f a s'
  | (s', Raise e) => (s', Raise e)
  end.

Definition lift {A} (r : result A) : M A := fun s => (s, r).

Definition print (l : line) : M unit := fun s =>
  ({| tracked_pairs := tracked_pairs s;
      stdout := (stdout s ++ [l])%list |}, Ok tt).

(** [k in tracked_pairs] *)
Definition is_tracked (k : hashable) : M bool := fun s =>
  (s, Ok (bool_decide (k ∈ tracked_pairs s))).

(** [tracked_pairs.add(k)] *)
Definition track (k : hashable) : M unit := fun s =>
  ({| tracked_pairs := {[k]} ∪ tracked_pairs s; stdout := stdout s |}, Ok tt).

Declare Scope M_scope.
Delimit Scope M_scope with M.
Notation "x <- m ;; k" := (bind m (fun x => k))
  (at level 100, m at next level, right associativity) : M_scope.
Notation "m ;;; k" := (bind m (fun _ => k))
  (at level 100, right associativity) : M_scope.

(** A [for] loop whose body may raise: the first exception ends the loop
    and keeps the state the body had reached. *)
Fixpoint for_each {A} (body : A -> M unit) (l : list A) : M unit :=
  match l with
  | [] => ret tt
  | x :: l' => bind (body x) (fun _ => for_each body l')
  end.

(** ** The analysis of one pair (lines 72-99) *)

(** The five values read from a pair object at lines 72-77. *)
Record snapshot : Type := Snapshot {
  snap_symbol : value;
  snap_name : value;
  snap_liquidity_usd : value;
  snap_buys_m5 : value;
  snap_sells_m5 : value
}.

(** [{'buys': 0, 'sells': 0}], the default of line 75. *)
Definition no_txns : value :=
  VDict (<["buys" := VNum 0]> (<["sells" := VNum 0]> ∅)).

(** Lines 72-73: [pair['baseToken']['symbol']] and
    [pair['baseToken']['name']]. *)
Definition read_base_token (pair : value) : result (value * value) :=
  base_token ← getitem pair "baseToken";
  base_token_symbol ← getitem base_token "symbol";
  base_token' ← getitem pair "baseToken";
  base_token_name ← getitem base_token' "name";
  Ok (base_token_symbol, base_token_name).

(** Line 74: [pair.get('liquidity', {}).get('usd', 0)]. *)
Definition read_liquidity_usd (pair : value) : result value :=
  liquidity ← get pair "liquidity" (VDict ∅);
  get liquidity "usd" (VNum 0).

(** Lines 75-77: [txns_m5], then [buys_m5] and [sells_m5]. *)
Definition read_txns_m5 (pair : value) : result (value * value) :=
  txns ← get pair "txns" (VDict ∅);
  txns_m5 ← get txns "m5" no_txns;
  buys_m5 ← get txns_m5 "buys" (VNum 0);
  sells_m5 ← get txns_m5 "sells" (VNum 0);
  Ok (buys_m5, sells_m5).

(** Lines 72-77. *)
Definition extract (pair : value) : result snapshot :=
  '(base_token_symbol, base_token_name) ← read_base_token pair;
  liquidity_usd ← read_liquidity_usd pair;
  '(buys_m5, sells_m5) ← read_txns_m5 pair;
  Ok {| snap_symbol := base_token_symbol;
        snap_name := base_token_name;
        snap_liquidity_usd := liquidity_usd;
        snap_buys_m5 := buys_m5;
        snap_sells_m5 := sells_m5 |}.

(** Line 80:
    [buys_m5 / sells_m5 if sells_m5 > 0
     else (buys_m5 / 1 if buys_m5 > 0 else 1)].
    The comparison with 0 and the division raise TypeError on an operand
    that is not a number, and the division raises OverflowError on a
    quotient beyond the range of a float. *)
Definition compute_ratio (buys_m5 sells_m5 : value) : result Qc :=
  s ← as_number sells_m5;
  if bool_decide (0 < s) then
    b ← as_number buys_m5; truediv b s
  else
    b ← as_number buys_m5;
    if bool_decide (0 < b) then truediv b 1 else Ok 1.

(** Lines 83-99: the flag and the list start as [True] and [[]] and each
    of the three [if] statements updates them in turn. *)
Definition classify (cfg : config) (liquidity_usd buys_m5 sells_m5 ratio : Qc)
  : bool * list reason :=
  let is_trustworthy := true in
  let reasons := [] in
  let '(is_trustworthy, reasons) :=
    if bool_decide (liquidity_usd < MIN_LIQUIDITY_USD cfg)
    then (false,
          (reasons
           ++ [LowLiquidity liquidity_usd (MIN_LIQUIDITY_USD cfg)])%list)
    else (is_trustworthy, reasons) in
  let '(is_trustworthy, reasons) :=
    if bool_decide (buys_m5 + sells_m5 < MIN_TXNS_M5 cfg)
    then (false,
          (reasons
           ++ [LowVolume (buys_m5 + sells_m5) (MIN_TXNS_M5 cfg)])%list)
    else (is_trustworthy, reasons) in
  let '(is_trustworthy, reasons) :=
    if negb (bool_decide (BUY_SELL_RATIO_MIN cfg ≤ ratio)
             && bool_decide (ratio ≤ BUY_SELL_RATIO_MAX cfg))
    then (false, (reasons ++ [UnbalancedRatio ratio])%list)
    else (is_trustworthy, reasons) in
  (is_trustworthy, reasons).

(** The f-string of line 89, evaluated when the liquidity is below the
    minimum, formats both with [:,.2f]. *)
Definition format_low_liquidity (cfg : config) (liquidity_usd : Qc)
  : result unit :=
  if bool_decide (liquidity_usd < MIN_LIQUIDITY_USD cfg)
     && negb (formats_as_float liquidity_usd
              && formats_as_float (MIN_LIQUIDITY_USD cfg))
  then Raise OverflowError
  else Ok tt.

(** Lines 72-99 for a pair whose address has been read: the report that
    lines 104-116 print, or the exception raised on the way. *)
Definition analyse (cfg : config) (pair_address pair : value) : result report :=
  snap ← extract pair;
  ratio ← compute_ratio (snap_buys_m5 snap) (snap_sells_m5 snap);
  liquidity_usd ← as_number (snap_liquidity_usd snap);
  buys_m5 ← as_number (snap_buys_m5 snap);
  sells_m5 ← as_number (snap_sells_m5 snap);
  _ ← format_low_liquidity cfg liquidity_usd;
  let '(is_trustworthy, reasons) :=
    classify cfg liquidity_usd buys_m5 sells_m5 ratio in
  Ok {| is_trustworthy := is_trustworthy;
        base_token_name := snap_name snap;
        base_token_symbol := snap_symbol snap;
        pair_address := pair_address;
        liquidity_usd := liquidity_usd;
        buys_m5 := buys_m5;
        sells_m5 := sells_m5;
        buy_sell_ratio := ratio;
        reasons := reasons |}.

(** ** [check_new_tokens] (lines 45-121) *)

Local Open Scope M_scope.

(** Lines 104-116.  Line 107 writes the name and the symbol, line 108 the
    address, line 109 the liquidity with [:,.2f]; the other lines are ASCII
    text and numbers written as they are.  When one of these lines raises,
    [report_cut] is the number of lines written before it (3 before
    line 107, 4 before line 108, 5 before line 109), with the
    exception. *)
Definition report_cut (cfg : config) (r : report) : option (nat * exn) :=
  if negb (stdout_encodes cfg (base_token_name r)
           && stdout_encodes cfg (base_token_symbol r))
  then Some (3%nat, UnicodeEncodeError)
  else if negb (stdout_encodes cfg (pair_address r))
  then Some (4%nat, UnicodeEncodeError)
  else if negb (formats_as_float (liquidity_usd r))
  then Some (5%nat, OverflowError)
  else None.

Definition print_report (cfg : config) (r : report) : M unit :=
  match report_cut cfg r with
  | None => print (NewToken r)
  | Some (c, e) => print (Unfinished r c);;; lift (Raise e)
  end.

(** The body of the [for] loop, lines 62-116.  Returning [tt] right after
    the membership test is the [continue] of line 66. *)
Definition loop_body (cfg : config) (pair : value) : M unit :=
  pair_address <- lift (getitem pair "pairAddress");;
  k <- lift (to_hashable pair_address);;
  seen <- is_tracked k;;
  if seen then ret tt
  else
    track k;;;
    r <- lift (analyse cfg pair_address pair);;
    print_report cfg r.

(** Line 57: [not data or 'pairs' not in data or not data['pairs']], with
    the short-circuit evaluation of [or]. *)
Definition no_pairs (data : value) : result bool :=
  if negb (truthy data) then Ok true
  else
    has_pairs ← contains "pairs" data;
    if negb has_pairs then Ok true
    else
      pairs ← getitem data "pairs";
      Ok (negb (truthy pairs)).

(** What lines 53-55 yield: an exception, or the decoded body. *)
Inductive fetch : Type :=
| FetchRaises (e : exn)
| FetchReturns (data : value).

Definition fetched (f : fetch) : result value :=
  match f with
  | FetchRaises e => Raise e
  | FetchReturns data => Ok data
  end.

(** The [try] block, lines 53-116. *)
Definition try_block (cfg : config) (f : fetch) : M unit :=
  data <- lift (fetched f);;
  none <- lift (no_pairs data);;
  if none then print NoNewPairs
  else
    pairs <- lift (getitem data "pairs");;
    items <- lift (iter pairs);;
    for_each (loop_body cfg) items.

(** The whole function: the [try] block under its two [except] clauses.
    The second component is the exception that leaves the function, if
    one does. *)
Definition check_new_tokens (cfg : config) (f : fetch) (s : state)
  : state * option exn :=
  match try_block cfg f s with
  | (s', Ok _) => (s', None)
  | (s', Raise e) =>
      if is_RequestException e then (fst (print (ErrorFetching e) s'), None)
      else if is_Exception e then (fst (print (UnexpectedError e) s'), None)
      else (s', Some e)
  end.

(** ** [main] (lines 124-141)

    The loop of [main] never ends on its own; a run is given by the
    provider's answers to the polls made so far. *)

(** Lines 137-139, for the answers [fs]. *)
Fixpoint poll_loop (cfg : config) (fs : list fetch) (s : state)
  : state * option exn :=
  match fs with
  | [] => (s, None)
  | f :: fs' =>
      match check_new_tokens cfg f s with
      | (s', None) => poll_loop cfg fs' s'
      | (s', Some e) => (s', Some e)
      end
  end.

Definition initial_state : state :=
  {| tracked_pairs := ∅; stdout := [] |}.

(** [main]: the banner, the first check (line 134, outside the [try]), then
    the loop under [except KeyboardInterrupt]. *)
Definition main (cfg : config) (fs : list fetch) : state * option exn :=
  let s0 := fst (print Started initial_state) in
  match fs with
  | [] => (s0, None)
  | f :: fs' =>
      match check_new_tokens cfg f s0 with
      | (s1, Some e) => (s1, Some e)
      | (s1, None) =>
          match poll_loop cfg fs' s1 with
          | (s2, Some KeyboardInterrupt) => (fst (print Stopped s2), None)
          | r => r
          end
      end
  end.

(** ** Notions used to state the properties *)

(** The identifier under which a pair object is looked up in
    [tracked_pairs] (lines 62 and 65). *)
Definition pair_key (pair : value) : result hashable :=
  pair_address ← getitem pair "pairAddress";
  to_hashable pair_address.

(** The reports among printed lines, in the order printed. *)
Definition reports (out : list line) : list report :=
  omap (fun l => match l with NewToken r => Some r | _ => None end) out.

Definition report_key (r : report) : option hashable :=
  match to_hashable (pair_address r) with
  | Ok k => Some k
  | Raise _ => None
  end.

#[global] Instance exn_eq_dec : EqDecision exn.
Proof. solve_decision. Defined.

#[global] Instance result_eq_dec {A} `{EqDecision A} : EqDecision (result A).
Proof. solve_decision. Defined.

(** The reports printed for the identifier [k]. *)
Definition reports_for (k : hashable) (out : list line) : list report :=
  filter (fun r => report_key r = Some k) (reports out).

(** What one call of [check_new_tokens] prints, and the reports in it:
    the result of the poll. *)
Definition printed (cfg : config) (f : fetch) (s : state) : list line :=
  drop (length (stdout s)) (stdout (fst (check_new_tokens cfg f s))).

Definition new_reports (cfg : config) (f : fetch) (s : state) : list report :=
  reports (printed cfg f s).

(** The thresholds a report passes. *)
Definition liquidity_ok (cfg : config) (r : report) : Prop :=
  MIN_LIQUIDITY_USD cfg ≤ liquidity_usd r.

Definition volume_ok (cfg : config) (r : report) : Prop :=
  MIN_TXNS_M5 cfg ≤ buys_m5 r + sells_m5 r.

Definition ratio_ok (cfg : config) (r : report) : Prop :=
  BUY_SELL_RATIO_MIN cfg ≤ buy_sell_ratio r ≤ BUY_SELL_RATIO_MAX cfg.

(** A provider answer whose listing is [l]. *)
Definition listing (l : list value) : fetch :=
  FetchReturns (VDict (<["pairs" := VList l]> ∅)).

(** A well-formed pair object. *)
Definition mk_pair (addr : string) (liq buys sells : Qc) : value :=
  VDict (<["pairAddress" := VStr addr]>
        (<["baseToken" := VDict (<["symbol" := VStr "TKN"]>
                                (<["name" := VStr "Token"]> ∅))]>
        (<["liquidity" := VDict (<["usd" := VNum liq]> ∅)]>
        (<["txns" :=
             VDict (<["m5" := VDict (<["buys" := VNum buys]>
                                    (<["sells" := VNum sells]> ∅))]> ∅)]>
         ∅)))).

(** The first pair object of a listing whose identifier is [k]. *)
Definition first_with_key (k : hashable) (l : list value) : option value :=
  snd <$> list_find (fun p => pair_key p = Ok k) l.

(** The list the [for] loop of a poll runs over; empty when the poll does
    not reach the loop. *)
Definition items_of (f : fetch) : list value :=
  match f with
  | FetchReturns data =>
      match no_pairs data with
      | Ok false =>
          match getitem data "pairs" ≫= iter with
          | Ok l => l
          | Raise _ => []
          end
      | _ => []
      end
  | FetchRaises _ => []
  end.

(** What a run of the loop over [l] from [s] to [s'] guarantees for the
    reports [rs] it printed: the set only grows, no two reports share an
    identifier, and each report is for an identifier that was new, is now
    tracked, and analyses the first pair object listed under it. *)
Definition loop_post (cfg : config) (l : list value) (s s' : state)
    (rs : list report) : Prop :=
  tracked_pairs s ⊆ tracked_pairs s'
  ∧ NoDup (report_key <$> rs)
  ∧ ∀ r, r ∈ rs ->
      ∃ k p, report_key r = Some k
             ∧ (k ∉ tracked_pairs s)
             ∧ k ∈ tracked_pairs s'
             ∧ first_with_key k l = Some p
             ∧ analyse cfg (pair_address r) p = Ok r.

(** What holds of every state the program reaches: no two printed reports
    share an identifier, and the identifier of every printed report is
    tracked. *)
Definition tracker_inv (s : state) : Prop :=
  NoDup (report_key <$> reports (stdout s))
  ∧ ∀ r, r ∈ reports (stdout s) ->
         ∃ k, report_key r = Some k ∧ k ∈ tracked_pairs s.

(** The same identifier listed twice, with different figures. *)
Definition pair_a : value := mk_pair "0xa" (Q2Qc 10000) (Q2Qc 20) (Q2Qc 15).
Definition pair_a_changed : value :=
  mk_pair "0xa" (Q2Qc 1000) (Q2Qc 5) (Q2Qc 2).

(** A decoded body without pairs: an empty (falsy) body, a dict without the
    key ['pairs'], or a dict whose ['pairs'] is empty (falsy). *)
Definition no_listing (data : value) : Prop :=
  truthy data = false
  ∨ ∃ d, data = VDict d
         ∧ (d !! "pairs" = None
            ∨ ∃ v, d !! "pairs" = Some v ∧ truthy v = false).

(** A pair object without identifier, and one whose base token has no
    symbol. *)
Definition pair_without_address : value := VDict ∅.

Definition pair_without_symbol : value :=
  VDict (<["pairAddress" := VStr "0xc"]>
        (<["baseToken" := VDict (<["name" := VStr "Token"]> ∅)]> ∅)).

(** A pair object with an identifier and a base token and nothing else. *)
Definition pair_bare : value :=
  VDict (<["pairAddress" := VStr "0xd"]>
        (<["baseToken" := VDict (<["symbol" := VStr "TKN"]>
                                (<["name" := VStr "Token"]> ∅))]> ∅)).

(** The exceptions the body of the loop can raise are builtin ones:
    the second [except] clause catches them. *)
Definition builtin (e : exn) : Prop :=
  is_RequestException e = false ∧ is_Exception e = true.

(** ** Proof steps used more than once *)

Ltac qc_contra :=
  match goal with
  | H1 : ?x < ?y, H2 : ?y ≤ ?x |- _ => exfalso; exact (Qcle_not_lt _ _ H2 H1)
  end.

Ltac sublist_of_three :=
  repeat first [apply sublist_nil | apply sublist_skip | apply sublist_cons].

(** Lemmas stating which exceptions an operation raises. *)
Create HintDb raises.

(** One step through a chain of operations: case on the next one; when it
    raises, the chain raises the same exception. *)
Ltac raises_step H :=
  match type of H with
  | context [getitem ?v ?k] =>
      let E := fresh "E" in
      destruct (getitem v k) eqn:E; simpl in H;
      [|inversion H; subst; by eauto with raises]
  | context [get ?v ?k ?d] =>
      let E := fresh "E" in
      destruct (get v k d) eqn:E; simpl in H;
      [|inversion H; subst; by eauto with raises]
  | context [as_number ?v] =>
      let E := fresh "E" in
      destruct (as_number v) eqn:E; simpl in H;
      [|inversion H; subst; by eauto with raises]
  end.

(** ** Notions used to state further properties *)

(** A fetch whose exception, if it raises one, derives from [Exception]. *)
Definition contained (f : fetch) : bool :=
  match f with
  | FetchRaises e => is_Exception e
  | FetchReturns _ => true
  end.

(** The identifiers of the pair objects of a listing, in listing order;
    a pair object without readable identifier contributes none. *)
Definition keys_of (l : list value) : list hashable :=
  omap (fun p => match pair_key p with
                 | Ok k => Some k
                 | Raise _ => None
                 end) l.

(** Of the identifiers [ks], in order, those that are not in [T] and did
    not occur earlier in [ks]. *)
Fixpoint fresh_keys (T : gset hashable) (ks : list hashable)
  : list hashable :=
  match ks with
  | [] => []
  | k :: ks' =>
      if decide (k ∈ T) then fresh_keys T ks'
      else k :: fresh_keys ({[k]} ∪ T) ks'
  end.

(** The try block ran to its end: neither [except] clause was entered. *)
Definition completes (cfg : config) (f : fetch) (s : state) : Prop :=
  snd (try_block cfg f s) = Ok tt.

(** A value that the arithmetic of lines 80-97 accepts. *)
Definition number_like (v : value) : bool :=
  match v with
  | VNum _ | VBool _ => true
  | _ => false
  end.

(** An absent field, or a present one that satisfies [P]. *)
Definition absent_or (P : value -> bool) (o : option value) : bool :=
  match o with
  | None => true
  | Some v => P v
  end.

Definition is_dict_with (P : gmap string value -> bool) (v : value) : bool :=
  match v with
  | VDict d => P d
  | _ => false
  end.

(** The shape of a pair object that lines 72-99 go through without
    raising: a base token object with a symbol and a name; a liquidity
    object, if present, whose [usd], if present, is a number; a [txns]
    object, if present, whose [m5], if present, is an object whose [buys]
    and [sells], if present, are numbers. *)
Definition well_shaped (pair : value) : bool :=
  is_dict_with (fun d =>
    match d !! "baseToken" with
    | Some (VDict b) =>
        bool_decide (is_Some (b !! "symbol"))
        && bool_decide (is_Some (b !! "name"))
    | _ => false
    end
    && absent_or (is_dict_with (fun l => absent_or number_like (l !! "usd")))
         (d !! "liquidity")
    && absent_or
         (is_dict_with (fun t =>
            absent_or
              (is_dict_with (fun m =>
                 absent_or number_like (m !! "buys")
                 && absent_or number_like (m !! "sells")))
              (t !! "m5")))
         (d !! "txns")) pair.

(** [cfg'] is at least as strict as [cfg] on every threshold. *)
Definition stricter (cfg cfg' : config) : Prop :=
  MIN_LIQUIDITY_USD cfg ≤ MIN_LIQUIDITY_USD cfg'
  ∧ MIN_TXNS_M5 cfg ≤ MIN_TXNS_M5 cfg'
  ∧ BUY_SELL_RATIO_MIN cfg ≤ BUY_SELL_RATIO_MIN cfg'
  ∧ BUY_SELL_RATIO_MAX cfg' ≤ BUY_SELL_RATIO_MAX cfg.

(** Thresholds twice as demanding as the default ones. *)
Definition strict_config : config :=
  {| MIN_LIQUIDITY_USD := Q2Qc 10000;
     MIN_TXNS_M5 := Q2Qc 20;
     BUY_SELL_RATIO_MIN := Q2Qc 0.2;
     BUY_SELL_RATIO_MAX := Q2Qc 5;
     stdout_encodes := fun _ => true |}.

Definition is_ok {A} (r : result A) : bool :=
  match r with
  | Ok _ => true
  | Raise _ => false
  end.

(** A pair object with a hashable identifier and the shape above. *)
Definition well_formed (pair : value) : bool :=
  is_ok (pair_key pair) && well_shaped pair.


(** 2^k, for k >= 0. *)
Definition pow2 (k : Z) : Qc := Q2Qc (inject_Z (2 ^ k)).

(** [r] is within half a unit in the last place of [q]: within a relative
    error of 2^-53, or, where floats are subnormal, within an absolute
    error of 2^-1075. *)
Definition close_to (q r : Qc) : Prop :=
  Qcabs.Qcabs (r - q) * pow2 53 ≤ Qcabs.Qcabs q
  ∨ Qcabs.Qcabs (r - q) * pow2 1075 ≤ 1.

(** Numerator and denominator of m * 2^e. *)
Definition scale2_num (m e : Z) : Z :=
  if (0 <=? e)%Z then (m * 2 ^ e)%Z else m.

Definition scale2_den (m e : Z) : Z :=
  if (0 <=? e)%Z then 1%Z else (2 ^ (- e))%Z.

(** A number below 2^1023 in magnitude: well inside the range of a
    float. *)
Definition moderate (q : Qc) : bool :=
  (Z.abs (Qnum q) <? 2 ^ 1023 * Zpos (Qden q))%Z.

(** A number of magnitude 2^1024 or more: beyond the range of a float. *)
Definition huge (q : Qc) : bool :=
  (2 ^ 1024 * Zpos (Qden q) <=? Z.abs (Qnum q))%Z.

(** A whole number below 2^1023 in magnitude, or a bool. *)
Definition moderate_count (v : value) : bool :=
  match as_number v with
  | Ok q => integral q && moderate q
  | Raise _ => false
  end.

(** The figures of a pair object stay within the range of a float: whole
    counts and a liquidity below 2^1023 in magnitude, as is the liquidity
    threshold they are compared with. *)
Definition moderate_figures (cfg : config) (pair : value) : bool :=
  moderate (MIN_LIQUIDITY_USD cfg)
  && match extract pair with
     | Ok snap =>
         match as_number (snap_liquidity_usd snap) with
         | Ok q => moderate q
         | Raise _ => false
         end
         && moderate_count (snap_buys_m5 snap)
         && moderate_count (snap_sells_m5 snap)
     | Raise _ => false
     end.

(** The texts of lines 107-108 can be written to [sys.stdout]. *)
Definition printable (cfg : config) (pair : value) : bool :=
  match getitem pair "pairAddress", extract pair with
  | Ok a, Ok snap =>
      stdout_encodes cfg a
      && stdout_encodes cfg (snap_name snap)
      && stdout_encodes cfg (snap_symbol snap)
  | _, _ => false
  end.

(** The default thresholds on a console that cannot write the text
    "Token". *)
Definition plain_console : config :=
  {| MIN_LIQUIDITY_USD := MIN_LIQUIDITY_USD default_config;
     MIN_TXNS_M5 := MIN_TXNS_M5 default_config;
     BUY_SELL_RATIO_MIN := BUY_SELL_RATIO_MIN default_config;
     BUY_SELL_RATIO_MAX := BUY_SELL_RATIO_MAX default_config;
     stdout_encodes := fun v =>
       match v with
       | VStr s => negb (String.eqb s "Token")
       | _ => true
       end |}.

(** A pair object that one iteration of the loop goes through to its last
    line. *)
Definition processable (cfg : config) (pair : value) : bool :=
  well_formed pair && moderate_figures cfg pair && printable cfg pair.

(** ** The interrupt of the user

    Ctrl-C makes Python raise KeyboardInterrupt in the main thread before
    the statement it is about to run, wherever the program is.  A [clock]
    tells when: [Some n] after [n] more statements have run, [None]
    never, or no more.  [MI] is the monad [M] under a clock; [stmt] is one
    statement: it is not run when the interrupt arrives before it.  A
    statement is taken to run to its end; the statements between two
    writes to the state are taken together where they are written
    together in [M]. *)

Definition clock : Type := option nat.

Definition MI (A : Type) : Type := clock -> state -> state * result A * clock.

Definition stmt {A} (m : M A) : MI A := fun c s =>
  match c with
  | Some 0%nat => (s, Raise KeyboardInterrupt, None)
  | Some (S n) => (m s, Some n)
  | None => (m s, None)
  end.

Definition ret_i {A} (a : A) : MI A := fun c s => (s, Ok a, c).

Definition bind_i {A B} (m : MI A) (f : A -> MI B) : MI B := fun c s =>
  match m c s with
  | (s', Ok a, c') => f a c' s'
  | (s', Raise e, c') => (s', Raise e, c')
  end.

Declare Scope MI_scope.
Delimit Scope MI_scope with MI.
Notation "x <- m ;; k" := (bind_i m (fun x => k))
  (at level 100, m at next level, right associativity) : MI_scope.
Notation "m ;;; k" := (bind_i m (fun _ => k))
  (at level 100, right associativity) : MI_scope.

Fixpoint for_each_i {A} (body : A -> MI unit) (l : list A) : MI unit :=
  match l with
  | [] => ret_i tt
  | x :: l' => bind_i (body x) (fun _ => for_each_i body l')
  end.

(** The number of [print] statements that write a report: lines 104-111,
    lines 113 and 115 for an untrustworthy one, line 116. *)
Definition report_lines (r : report) : nat :=
  8 + (if is_trustworthy r then 0 else 1 + length (reasons r)) + 1.

(** The first [n] lines of a report have been written. *)
Definition write_lines (r : report) (n : nat) : M unit :=
  match n with
  | 0%nat => ret tt
  | S _ => print (Unfinished r n)
  end.

Local Open Scope MI_scope.

(** Lines 104-116 under the clock: the [print] statements that go through
    ([report_lines] of them, or those before the one that raises), then
    the one that raises, if one does. *)
Definition print_report_i (cfg : config) (r : report) : MI unit := fun c s =>
  let written := match report_cut cfg r with
                 | Some (k, _) => k
                 | None => report_lines r
                 end in
  let rest c' :=
    match report_cut cfg r with
    | Some (k, e) =>
        stmt (lift (Raise e)) c' (fst (print (Unfinished r k) s))
    | None => (print (NewToken r) s, c')
    end in
  match c with
  | Some n =>
      if (n <? written)%nat
      then (fst (write_lines r n s), Raise KeyboardInterrupt, None)
      else rest (Some (n - written)%nat)
  | None => rest None
  end.

(** The body of the [for] loop, lines 62-116, under the clock. *)
Definition loop_body_i (cfg : config) (pair : value) : MI unit :=
  pair_address <- stmt (lift (getitem pair "pairAddress"));;
  k <- stmt (lift (to_hashable pair_address));;
  seen <- stmt (is_tracked k);;
  if seen then ret_i tt
  else
    stmt (track k);;;
    r <- stmt (lift (analyse cfg pair_address pair));;
    print_report_i cfg r.

(** The [try] block, lines 53-116, under the clock. *)
Definition try_block_i (cfg : config) (f : fetch) : MI unit :=
  data <- stmt (lift (fetched f));;
  none <- stmt (lift (no_pairs data));;
  if none then stmt (print NoNewPairs)
  else
    pairs <- stmt (lift (getitem data "pairs"));;
    items <- stmt (lift (iter pairs));;
    for_each_i (loop_body_i cfg) items.

(** [check_new_tokens] under the clock: neither [except] clause catches
    the interrupt, and the [print] of a clause is a statement as well. *)
Definition check_new_tokens_i (cfg : config) (f : fetch) : MI unit :=
  fun c s =>
  match try_block_i cfg f c s with
  | (s', Ok _, c') => (s', Ok tt, c')
  | (s', Raise e, c') =>
      if is_RequestException e then stmt (print (ErrorFetching e)) c' s'
      else if is_Exception e then stmt (print (UnexpectedError e)) c' s'
      else (s', Raise e, c')
  end.

(** Lines 137-139 under the clock; [time.sleep] is a statement that
    leaves the state as it is. *)
Fixpoint poll_loop_i (cfg : config) (fs : list fetch) : MI unit :=
  match fs with
  | [] => ret_i tt
  | f :: fs' =>
      stmt (ret tt);;; check_new_tokens_i cfg f;;; poll_loop_i cfg fs'
  end.

(** [main] under a clock that starts after the banner.  The first check
    is the statement of line 134, outside the [try]: the interrupt can
    also arrive as the call returns. *)
Definition main_i (cfg : config) (fs : list fetch) (c : clock)
  : state * result unit * clock :=
  let s0 := fst (print Started initial_state) in
  match fs with
  | [] => (s0, Ok tt, c)
  | f :: fs' =>
      match (check_new_tokens_i cfg f;;; stmt (ret tt)) c s0 with
      | (s1, Raise e, c1) => (s1, Raise e, c1)
      | (s1, Ok _, c1) =>
          match poll_loop_i cfg fs' c1 s1 with
          | (s2, Raise KeyboardInterrupt, c2) => stmt (print Stopped) c2 s2
          | r => r
          end
      end
  end.

(** The interrupt arrived while a computation ran from clock [c] to
    clock [c']. *)
Definition arrived (c c' : clock) : Prop := is_Some c ∧ c' = None.

(** What an interrupt that arrives in the body of the loop run on [p]
    from [s] leaves: [s] itself before line 69, else the identifier
    tracked and at most the first lines of the report. *)
Definition interrupted_body (cfg : config) (p : value) (s s' : state) : Prop :=
  s' = s
  ∨ ∃ a k,
      getitem p "pairAddress" = Ok a
      ∧ to_hashable a = Ok k
      ∧ (k ∉ tracked_pairs s)
      ∧ (s' = fst (track k s)
         ∨ ∃ r n, analyse cfg a p = Ok r
                  ∧ s' = fst (print (Unfinished r n) (fst (track k s)))).

(** What an interrupt that arrives in a poll from [s] leaves: [s] itself;
    or the state of the loop run over the pairs listed before some pair,
    and what the body interrupted on that pair leaves; or the state of
    the [try] block that raised, before its [except] clause prints. *)
Definition interrupted_poll (cfg : config) (f : fetch) (s s' : state) : Prop :=
  s' = s
  ∨ (∃ l1 p l2 s1,
       items_of f = (l1 ++ p :: l2)%list
       ∧ for_each (loop_body cfg) l1 s = (s1, Ok tt)
       ∧ interrupted_body cfg p s1 s')
  ∨ (∃ e, try_block cfg f s = (s', Raise e)).

(** The interrupt did not arrive while a computation ran from clock [c]
    to clock [c']. *)
Definition quiet (c c' : clock) : Prop :=
  (c = None ∧ c' = None) ∨ (is_Some c ∧ is_Some c').

(** [mi] is [m] under the clock: when the interrupt does not arrive it
    does what [m] does, and when it arrives it raises KeyboardInterrupt
    and leaves a state that [Q] relates to the initial one. *)
Definition under_clock {A} (mi : MI A) (m : M A)
    (Q : state -> state -> Prop) : Prop :=
  ∀ c s,
    let '(s', r, c') := mi c s in
    (arrived c c' ∧ r = Raise KeyboardInterrupt ∧ Q s s')
    ∨ (quiet c c' ∧ m s = (s', r)).

(** The exception that leaves a computation, if one does. *)
Definition escaping {A} (r : result A) : option exn :=
  match r with
  | Ok _ => None
  | Raise e => Some e
  end.

(** ** The loop body, case by case *)

Lemma loop_body_unfold cfg pair s :
  loop_body cfg pair s =
  match getitem pair "pairAddress" with
  | Raise e => (s, Raise e)
  | Ok a =>
      match to_hashable a with
      | Raise e => (s, Raise e)
      | Ok k =>
          if bool_decide (k ∈ tracked_pairs s) then (s, Ok tt)
          else
            let T := {[k]} ∪ tracked_pairs s in
            match analyse cfg a pair with
            | Raise e => ({| tracked_pairs := T; stdout := stdout s |}, Raise e)
            | Ok r =>
                match report_cut cfg r with
                | None =>
                    ({| tracked_pairs := T;
                        stdout := (stdout s ++ [NewToken r])%list |}, Ok tt)
                | Some (c, e) =>
                    ({| tracked_pairs := T;
                        stdout := (stdout s ++ [Unfinished r c])%list |},
                     Raise e)
                end
            end
      end
  end.
Proof.
  unfold loop_body, print_report, bind, lift, is_tracked, track, print, ret.
  destruct (getitem pair "pairAddress") as [a|e]; [|done].
  destruct (to_hashable a) as [k|e]; [|done].
  case_bool_decide; [done|]. simpl.
  destruct (analyse cfg a pair) as [r|e]; [|done].
  by destruct (report_cut cfg r) as [[c e]|].
Qed.

Lemma analyse_pair_address cfg a pair r :
  analyse cfg a pair = Ok r -> pair_address r = a.
Proof.
  unfold analyse. intros H.
  destruct (extract pair) as [snap|]; [|done]. simpl in H.
  destruct (compute_ratio _ _); [|done]. simpl in H.
  destruct (as_number (snap_liquidity_usd snap)); [|done]. simpl in H.
  destruct (as_number (snap_buys_m5 snap)); [|done]. simpl in H.
  destruct (as_number (snap_sells_m5 snap)); [|done]. simpl in H.
  destruct (format_low_liquidity _ _); [|done]. simpl in H.
  destruct (classify _ _ _ _ _). by inversion H.
Qed.

Lemma report_key_analyse cfg a pair r k :
  analyse cfg a pair = Ok r -> to_hashable a = Ok k -> report_key r = Some k.
Proof.
  intros Hr Hk. unfold report_key.
  by rewrite (analyse_pair_address _ _ _ _ Hr), Hk.
Qed.

Lemma first_with_key_here k p l :
  pair_key p = Ok k -> first_with_key k (p :: l) = Some p.
Proof.
  intros H. unfold first_with_key. simpl.
  by rewrite decide_True.
Qed.

Lemma first_with_key_later k p l :
  pair_key p ≠ Ok k -> first_with_key k (p :: l) = first_with_key k l.
Proof.
  intros H. unfold first_with_key. simpl.
  rewrite decide_False by done.
  by destruct (list_find _ l) as [[i x]|].
Qed.

(** ** The [for] loop *)

Lemma reports_app a b : reports (a ++ b) = (reports a ++ reports b)%list.
Proof. apply omap_app. Qed.

Lemma reports_NewToken rs : reports (NewToken <$> rs) = rs.
Proof. induction rs as [|r rs IH]; [done|]. simpl. f_equal. exact IH. Qed.

Lemma loop_post_nil cfg l s s' :
  tracked_pairs s ⊆ tracked_pairs s' -> loop_post cfg l s s' [].
Proof.
  intros Hsub. unfold loop_post. split_and!; [done|constructor|].
  intros r Hr. inversion Hr.
Qed.

(** The loop prints reports, then at most the lines of a report it could
    not finish. *)
Lemma for_each_loop_body cfg l :
  ∀ s s' res,
    for_each (loop_body cfg) l s = (s', res) ->
    ∃ rs tail,
      stdout s' = (stdout s ++ (NewToken <$> rs) ++ tail)%list
      ∧ reports tail = []
      ∧ (res = Ok tt -> tail = [])
      ∧ loop_post cfg l s s' rs.
Proof.
  induction l as [|p l IH]; intros s s' res Hrun.
  - inversion Hrun; subst. exists [], []. simpl. rewrite app_nil_r.
    split_and!; [done|done|done|by apply loop_post_nil].
  - simpl in Hrun. unfold bind in Hrun. rewrite loop_body_unfold in Hrun.
    assert (Hstop : ∀ t e tail,
              (s', res) = (t, Raise e) ->
              stdout t = (stdout s ++ tail)%list -> reports tail = [] ->
              tracked_pairs s ⊆ tracked_pairs t ->
              ∃ rs tail,
                stdout s' = (stdout s ++ (NewToken <$> rs) ++ tail)%list
                ∧ reports tail = []
                ∧ (res = Ok tt -> tail = [])
                ∧ loop_post cfg (p :: l) s s' rs).
    { intros t e tail [= -> ->] Hout Htail Hsub. exists [], tail. simpl.
      split_and!; [done|done|done|by apply loop_post_nil]. }
    destruct (getitem p "pairAddress") as [a|e] eqn:Ha;
      [|symmetry in Hrun; eapply (Hstop _ _ []); eauto;
        by rewrite app_nil_r].
    destruct (to_hashable a) as [k0|e] eqn:Hk0;
      [|symmetry in Hrun; eapply (Hstop _ _ []); eauto;
        by rewrite app_nil_r].
    assert (Hkey : pair_key p = Ok k0) by (unfold pair_key; by rewrite Ha).
    case_bool_decide as Hseen.
    + (* line 66: continue *)
      clear Hstop.
      destruct (IH _ _ _ Hrun) as (rs & tail & Hout & Htail & Hok & Hpost).
      destruct Hpost as (Hsub & Hnd & Hrs).
      exists rs, tail. unfold loop_post. split_and!; try done.
      intros r Hr. destruct (Hrs r Hr) as (k & q & ? & Hk & ? & Hq & ?).
      exists k, q. split_and!; try done.
      rewrite first_with_key_later; [done|].
      rewrite Hkey. intros [= ->]. done.
    + simpl in Hrun. destruct (analyse cfg a p) as [r0|e] eqn:Hr0;
        [|symmetry in Hrun; eapply (Hstop _ _ []); eauto;
          [by rewrite app_nil_r|simpl; set_solver]].
      destruct (report_cut cfg r0) as [[c e]|] eqn:Hcut;
        [symmetry in Hrun; eapply (Hstop _ _ [Unfinished r0 c]); eauto;
         simpl; set_solver|].
      clear Hstop.
      destruct (IH _ _ _ Hrun) as (rs & tail & Hout & Htail & Hok & Hpost).
      destruct Hpost as (Hsub & Hnd & Hrs).
      simpl in Hout, Hsub, Hrs.
      assert (Hk0r : report_key r0 = Some k0)
        by eauto using report_key_analyse.
      exists (r0 :: rs), tail. unfold loop_post. split_and!.
      * rewrite Hout. simpl. by rewrite <- app_assoc.
      * done.
      * done.
      * set_solver.
      * rewrite fmap_cons. constructor; [|done].
        rewrite Hk0r. intros Hin.
        apply list_elem_of_fmap in Hin as (r & Hkr & Hr).
        destruct (Hrs r Hr) as (k & q & Hkr' & Hk & _).
        rewrite Hkr' in Hkr. inversion Hkr; subst. set_solver.
      * intros r Hr. apply elem_of_cons in Hr as [->|Hr].
        -- exists k0, p. split_and!; try done.
           ++ apply Hsub. set_solver.
           ++ by apply first_with_key_here.
           ++ by rewrite (analyse_pair_address _ _ _ _ Hr0).
        -- destruct (Hrs r Hr) as (k & q & ? & Hk & ? & Hq & ?).
           exists k, q. split_and!; try done.
           ++ set_solver.
           ++ rewrite first_with_key_later; [done|].
              rewrite Hkey. intros [= ->]. set_solver.
Qed.

(** A loop that ran to its end printed reports only. *)
Lemma for_each_loop_body_ok cfg l s s' :
  for_each (loop_body cfg) l s = (s', Ok tt) ->
  ∃ rs, stdout s' = (stdout s ++ (NewToken <$> rs))%list
        ∧ loop_post cfg l s s' rs.
Proof.
  intros Hrun.
  destruct (for_each_loop_body _ _ _ _ _ Hrun)
    as (rs & tail & Hout & _ & Hok & Hpost).
  exists rs. rewrite (Hok eq_refl), app_nil_r in Hout. done.
Qed.

(** ** One poll *)

Lemma try_block_spec cfg f s s' res :
  try_block cfg f s = (s', res) ->
  ∃ rs tail,
    stdout s' = (stdout s ++ (NewToken <$> rs) ++ tail)%list
    ∧ reports tail = []
    ∧ loop_post cfg (items_of f) s s' rs.
Proof.
  unfold try_block, bind, lift. intros Hrun.
  assert (Hnil : ∀ t, stdout t = stdout s ->
                      tracked_pairs t = tracked_pairs s ->
                      ∃ rs tail,
                        stdout t = (stdout s ++ (NewToken <$> rs) ++ tail)%list
                        ∧ reports tail = []
                        ∧ loop_post cfg (items_of f) s t rs).
  { intros t Ho Ht. exists [], []. simpl. rewrite app_nil_r.
    split_and!; [done|done|]. apply loop_post_nil. by rewrite Ht. }
  destruct f as [e|data]; simpl in Hrun.
  { inversion Hrun; subst. by apply Hnil. }
  destruct (no_pairs data) as [[|]|e] eqn:Hn;
    [| |inversion Hrun; subst; by apply Hnil].
  - inversion Hrun; subst. exists [], [NoNewPairs]. simpl.
    split_and!; [done|done|]. by apply loop_post_nil.
  - destruct (getitem data "pairs") as [pairs|e] eqn:Hg;
      [|inversion Hrun; subst; by apply Hnil].
    destruct (iter pairs) as [items|e] eqn:Hi;
      [|inversion Hrun; subst; by apply Hnil].
    assert (Hitems : items_of (FetchReturns data) = items).
    { unfold items_of. rewrite Hn, Hg. simpl. by rewrite Hi. }
    rewrite Hitems. clear Hnil.
    destruct (for_each_loop_body _ _ _ _ _ Hrun)
      as (rs & tail & Hout & Htail & _ & Hpost).
    by exists rs, tail.
Qed.

Lemma check_new_tokens_spec cfg f s :
  ∃ rs tail,
    stdout (fst (check_new_tokens cfg f s))
    = (stdout s ++ (NewToken <$> rs) ++ tail)%list
    ∧ reports tail = []
    ∧ loop_post cfg (items_of f) s (fst (check_new_tokens cfg f s)) rs.
Proof.
  unfold check_new_tokens.
  destruct (try_block cfg f s) as [s' res] eqn:Hrun.
  destruct (try_block_spec _ _ _ _ _ Hrun)
    as (rs & tail & Hout & Htail & Hpost).
  assert (Hline : ∀ l, reports [l] = [] ->
    ∃ rs tail,
      stdout (fst (print l s')) = (stdout s ++ (NewToken <$> rs) ++ tail)%list
      ∧ reports tail = []
      ∧ loop_post cfg (items_of f) s (fst (print l s')) rs).
  { intros l Hl. exists rs, (tail ++ [l])%list. simpl. split_and!.
    - rewrite Hout. by rewrite <- !app_assoc.
    - by rewrite reports_app, Htail, Hl.
    - done. }
  destruct res as [[]|e]; [by exists rs, tail|].
  destruct (is_RequestException e); [by apply Hline|].
  destruct (is_Exception e); [by apply Hline|].
  by exists rs, tail.
Qed.

Lemma printed_spec cfg f s :
  stdout (fst (check_new_tokens cfg f s)) = (stdout s ++ printed cfg f s)%list.
Proof.
  unfold printed.
  destruct (check_new_tokens_spec cfg f s) as (rs & tail & -> & _).
  by rewrite drop_app_length.
Qed.

Lemma new_reports_post cfg f s :
  loop_post cfg (items_of f) s (fst (check_new_tokens cfg f s))
    (new_reports cfg f s).
Proof.
  unfold new_reports, printed.
  destruct (check_new_tokens_spec cfg f s) as (rs & tail & -> & Htail & Hpost).
  rewrite drop_app_length, reports_app, reports_NewToken, Htail, app_nil_r.
  done.
Qed.

Lemma reports_check_new_tokens cfg f s :
  reports (stdout (fst (check_new_tokens cfg f s)))
  = (reports (stdout s) ++ new_reports cfg f s)%list.
Proof. by rewrite printed_spec, reports_app. Qed.

(** ** Rounding to a float *)

Lemma round_half_even_le N D :
  (0 < D)%Z -> (round_half_even N D <= N / D + 1)%Z.
Proof.
  intros HD. unfold round_half_even.
  destruct (2 * (N mod D) ?= D)%Z; [destruct (Z.even _)| |]; lia.
Qed.

Lemma round_half_even_one N : round_half_even N 1 = N.
Proof.
  unfold round_half_even. rewrite Z.mod_1_r, Z.div_1_r. reflexivity.
Qed.

Lemma floor_log2_le (n d : positive) :
  (0 <= floor_log2 n d)%Z ->
  (Zpos d * 2 ^ floor_log2 n d <= Zpos n)%Z.
Proof.
  unfold floor_log2.
  pose proof (Z.log2_spec (Zpos n) eq_refl) as [Hn1 Hn2].
  pose proof (Z.log2_spec (Zpos d) eq_refl) as [Hd1 Hd2].
  pose proof (Z.log2_nonneg (Zpos n)) as Hn0.
  pose proof (Z.log2_nonneg (Zpos d)) as Hd0.
  set (ln := Z.log2 (Zpos n)) in *. set (ld := Z.log2 (Zpos d)) in *.
  destruct (Z.leb_spec 0 (ln - ld)) as [Hk|Hk].
  - destruct (Z.leb_spec (Zpos d * 2 ^ (ln - ld)) (Zpos n)) as [Ht|Ht].
    + intros _. exact Ht.
    + intros Hfl.
      assert (Hpow : (2 ^ ln = 2 ^ (ld + 1) * 2 ^ (ln - ld - 1))%Z).
      { rewrite <- Z.pow_add_r by lia. f_equal. lia. }
      assert (0 < 2 ^ (ln - ld - 1))%Z by (apply Z.pow_pos_nonneg; lia).
      nia.
  - destruct (Zpos d <=? Zpos n * 2 ^ (- (ln - ld)))%Z; lia.
Qed.

Lemma round64_pos_in_range (n d : positive) :
  (Zpos n < 2 ^ 1023 * Zpos d)%Z ->
  overflows (fst (round64_pos n d)) (snd (round64_pos n d)) = false.
Proof.
  intros Hlt. unfold round64_pos, overflows. cbv zeta. simpl fst. simpl snd.
  set (fl := floor_log2 n d).
  destruct (Z.leb_spec 0 (Z.max (fl - 52) (-1074))) as [He|He]; [|done].
  simpl. apply Z.leb_gt.
  assert (Hfl : (52 <= fl)%Z) by lia.
  replace (Z.max (fl - 52) (-1074)) with (fl - 52)%Z in * by lia.
  pose proof (floor_log2_le n d ltac:(fold fl; lia)) as Hlow. fold fl in Hlow.
  assert (Hfl' : (fl < 1023)%Z).
  { apply (Z.pow_lt_mono_r_iff 2); [lia|lia|]. nia. }
  set (e := (fl - 52)%Z) in *.
  assert (He' : (2 ^ e <= 2 ^ 970)%Z) by (apply Z.pow_le_mono_r; lia).
  assert (Hpos : (0 < 2 ^ e)%Z) by (apply Z.pow_pos_nonneg; lia).
  assert (Hm : ((if (e <=? 0)%Z
                 then round_half_even (Zpos n * 2 ^ (- e)) (Zpos d)
                 else round_half_even (Zpos n) (Zpos d * 2 ^ e))
                <= Zpos n / (Zpos d * 2 ^ e) + 1)%Z).
  { destruct (Z.leb_spec e 0) as [H0|H0].
    - assert (e = 0)%Z as -> by lia. simpl. rewrite Z.mul_1_r.
      change (2 ^ 0)%Z with 1%Z. rewrite Z.mul_1_r.
      apply round_half_even_le. lia.
    - apply round_half_even_le. lia. }
  assert (Hdiv : (Zpos n / (Zpos d * 2 ^ e) * 2 ^ e < 2 ^ 1023)%Z).
  { rewrite <- Z.div_div by lia.
    pose proof (Z.mul_div_le (Zpos n / Zpos d) (2 ^ e) Hpos).
    assert (Zpos n / Zpos d < 2 ^ 1023)%Z
      by (apply Z.div_lt_upper_bound; lia).
    lia. }
  set (m := if (e <=? 0)%Z then _ else _) in *.
  assert (m * 2 ^ e <= Zpos n / (Zpos d * 2 ^ e) * 2 ^ e + 2 ^ e)%Z by nia.
  assert (2 ^ 1023 + 2 ^ 970 < 2 ^ 1024)%Z by (vm_compute; reflexivity).
  lia.
Qed.

Lemma round64_moderate q : moderate q = true -> is_ok (round64 q) = true.
Proof.
  unfold moderate, round64. intros H%Z.ltb_lt.
  destruct (Qnum q) as [|n|n] eqn:Hn; [done| |].
  - pose proof (round64_pos_in_range n (Qden q) ltac:(lia)) as Hr.
    destruct (round64_pos n (Qden q)) as [m e]. simpl in Hr. by rewrite Hr.
  - pose proof (round64_pos_in_range n (Qden q) ltac:(lia)) as Hr.
    destruct (round64_pos n (Qden q)) as [m e]. simpl in Hr. by rewrite Hr.
Qed.

Lemma integral_spec (q : Qc) : integral q = true -> Qden q = 1%positive.
Proof. unfold integral. by intros H%Pos.eqb_eq. Qed.

Lemma moderate_div (b s : Qc) :
  integral b = true -> integral s = true -> 0 < s ->
  moderate b = true -> moderate (b / s) = true.
Proof.
  intros Hb%integral_spec Hs%integral_spec Hpos. unfold moderate.
  intros Hm%Z.ltb_lt. apply Z.ltb_lt. rewrite Hb in Hm.
  assert (Heq : (this (b / s) == this b * / this s)%Q).
  { unfold Qcdiv, Qcmult, Qcinv, Q2Qc. simpl this.
    rewrite !Qred_correct. reflexivity. }
  destruct b as [[nb db] Cb], s as [[ns ds] Cs]. simpl in *. subst db ds.
  unfold Qclt in Hpos. simpl in Hpos. unfold Qlt in Hpos. simpl in Hpos.
  destruct ns as [|ps|ps]; try lia.
  unfold Qeq in Heq. simpl in Heq.
  set (q := Qred _) in *. clearbody q. destruct q as [n d]. simpl in *.
  nia.
Qed.

Lemma floor_log2_one (n : positive) : floor_log2 n 1 = Z.log2 (Zpos n).
Proof.
  unfold floor_log2. change (Z.log2 1) with 0%Z. rewrite Z.sub_0_r.
  pose proof (Z.log2_nonneg (Zpos n)).
  pose proof (Z.log2_spec (Zpos n) eq_refl) as [Hn _].
  rewrite (proj2 (Z.leb_le _ _)) by done.
  rewrite (proj2 (Z.leb_le _ _)) by lia. done.
Qed.

Lemma round64_pos_small (n : positive) :
  (Zpos n < 2 ^ 53)%Z ->
  let e := (Z.log2 (Zpos n) - 52)%Z in
  round64_pos n 1 = (Zpos n * 2 ^ (- e), e)%Z ∧ (e <= 0)%Z.
Proof.
  intros Hn e. unfold round64_pos. rewrite floor_log2_one.
  pose proof (Z.log2_nonneg (Zpos n)).
  assert (Z.log2 (Zpos n) < 53)%Z by (apply Z.log2_lt_pow2; lia).
  replace (Z.max (Z.log2 (Zpos n) - 52) (-1074)) with e by lia.
  split; [|lia]. rewrite (proj2 (Z.leb_le e 0)) by lia.
  by rewrite round_half_even_one.
Qed.

Lemma scale2_small (n : positive) (e : Z) :
  (e <= 0)%Z -> (scale2 (Zpos n * 2 ^ (- e)) e == Zpos n # 1)%Q.
Proof.
  intros He. unfold scale2.
  destruct (Z.leb_spec 0 e) as [H0|H0].
  - assert (e = 0)%Z as -> by lia. simpl. unfold Qeq. simpl. lia.
  - assert (0 < 2 ^ (- e))%Z by (apply Z.pow_pos_nonneg; lia).
    unfold Qeq. simpl. rewrite Z2Pos.id by done. lia.
Qed.

Lemma overflows_small (n : positive) (e : Z) :
  (Zpos n < 2 ^ 53)%Z -> (e <= 0)%Z ->
  overflows (Zpos n * 2 ^ (- e)) e = false.
Proof.
  intros Hn He. unfold overflows.
  destruct (Z.leb_spec 0 e) as [H0|H0]; [|done]. simpl.
  assert (e = 0)%Z as -> by lia. simpl. apply Z.leb_gt.
  assert (2 ^ 53 < 2 ^ 1024)%Z by (vm_compute; reflexivity). lia.
Qed.

Lemma round64_small_int (q : Qc) :
  integral q = true -> (Z.abs (Qnum q) < 2 ^ 53)%Z ->
  round64 q = Ok q.
Proof.
  intros Hq%integral_spec Hlt. unfold round64.
  destruct (Qnum q) as [|n|n] eqn:Hn; [done| |].
  - rewrite Hq.
    destruct (round64_pos_small n ltac:(lia)) as [-> He].
    rewrite overflows_small by (done || lia). f_equal.
    apply Qc_is_canon. simpl. rewrite Qred_correct, scale2_small by done.
    destruct q as [[nq dq] C]. simpl in *. by subst.
  - rewrite Hq.
    destruct (round64_pos_small n ltac:(lia)) as [-> He].
    rewrite overflows_small by (done || lia). f_equal.
    apply Qc_is_canon. simpl. rewrite Qred_correct.
    rewrite Qred_correct, scale2_small by done.
    destruct q as [[nq dq] C]. simpl in *. by subst.
Qed.

Lemma round_half_even_near N D :
  (0 < D)%Z -> (2 * Z.abs (round_half_even N D * D - N) <= D)%Z.
Proof.
  intros HD. unfold round_half_even.
  pose proof (Z.div_mod N D ltac:(lia)) as Hdiv.
  pose proof (Z.mod_pos_bound N D HD) as Hmod.
  destruct (Z.compare_spec (2 * (N mod D)) D) as [H|H|H];
    [destruct (Z.even _)| |]; nia.
Qed.

Lemma floor_log2_low (n d : positive) :
  (floor_log2 n d < 0)%Z ->
  (Zpos d <= Zpos n * 2 ^ (- floor_log2 n d))%Z.
Proof.
  unfold floor_log2.
  pose proof (Z.log2_spec (Zpos n) eq_refl) as [Hn1 Hn2].
  pose proof (Z.log2_spec (Zpos d) eq_refl) as [Hd1 Hd2].
  pose proof (Z.log2_nonneg (Zpos n)) as Hn0.
  pose proof (Z.log2_nonneg (Zpos d)) as Hd0.
  set (ln := Z.log2 (Zpos n)) in *. set (ld := Z.log2 (Zpos d)) in *.
  destruct (Z.leb_spec 0 (ln - ld)) as [Hk|Hk].
  - destruct (Z.leb_spec (Zpos d * 2 ^ (ln - ld)) (Zpos n)) as [Ht|Ht];
      [lia|].
    intros Hfl. assert (ln = ld) as Heq by lia.
    replace (- (ln - ld - 1))%Z with 1%Z by lia.
    rewrite Heq in *. replace (Z.succ ld) with (ld + 1)%Z in * by lia.
    rewrite Z.pow_add_r in Hd2 by lia. lia.
  - destruct (Z.leb_spec (Zpos d) (Zpos n * 2 ^ (- (ln - ld)))) as [Ht|Ht].
    + intros _. exact Ht.
    + intros _.
      replace (- (ln - ld - 1))%Z with (- (ln - ld) + 1)%Z by lia.
      assert (Hpow : (2 ^ Z.succ ld = 2 ^ ln * 2 ^ (- (ln - ld) + 1))%Z).
      { rewrite <- Z.pow_add_r by lia. f_equal. lia. }
      assert (0 < 2 ^ (- (ln - ld) + 1))%Z by (apply Z.pow_pos_nonneg; lia).
      nia.
Qed.

Lemma round64_pos_close (n d : positive) :
  let m := fst (round64_pos n d) in
  let e := snd (round64_pos n d) in
  let rn := scale2_num m e in
  let rd := scale2_den m e in
  (0 < rd)%Z
  ∧ ((Z.abs (rn * Zpos d - Zpos n * rd) * 2 ^ 53 <= Zpos n * rd)%Z
     ∨ (Z.abs (rn * Zpos d - Zpos n * rd) * 2 ^ 1075 <= rd * Zpos d)%Z).
Proof.
  unfold round64_pos, scale2_num, scale2_den. cbv zeta. simpl fst. simpl snd.
  set (fl := floor_log2 n d).
  pose proof (floor_log2_le n d) as Hhi. pose proof (floor_log2_low n d) as Hlo.
  fold fl in Hhi, Hlo.
  destruct (Z.le_gt_cases (-1074) (fl - 52)) as [Hnorm|Hsub].
  - replace (Z.max (fl - 52) (-1074)) with (fl - 52)%Z by lia.
    set (e := (fl - 52)%Z) in *.
    destruct (Z.leb_spec e 0) as [He|He].
    + pose proof (round_half_even_near (Zpos n * 2 ^ (- e)) (Zpos d)
                    ltac:(lia)) as Hnear.
      set (m := round_half_even _ _) in *.
      assert (Hp : (0 < 2 ^ (- e))%Z) by (apply Z.pow_pos_nonneg; lia).
      assert (Hscale : (Zpos d * 2 ^ 52 <= Zpos n * 2 ^ (- e))%Z).
      { destruct (Z.le_gt_cases 0 fl) as [Hfl|Hfl].
        - specialize (Hhi Hfl).
          replace (2 ^ 52)%Z with (2 ^ fl * 2 ^ (- e))%Z
            by (rewrite <- Z.pow_add_r by lia; f_equal; lia).
          nia.
        - specialize (Hlo Hfl).
          replace (2 ^ (- e))%Z with (2 ^ (- fl) * 2 ^ 52)%Z
            by (rewrite <- Z.pow_add_r by lia; f_equal; lia).
          nia. }
      destruct (Z.leb_spec 0 e) as [H0|H0].
      * assert (e = 0)%Z as Heq by lia. rewrite Heq in *.
        change (2 ^ (- 0))%Z with 1%Z in *. change (2 ^ 0)%Z with 1%Z.
        split; [lia|]. left. lia.
      * split; [lia|]. left. lia.
    + rewrite (proj2 (Z.leb_le 0 e)) by lia.
      assert (Hp : (0 < 2 ^ e)%Z) by (apply Z.pow_pos_nonneg; lia).
      pose proof (round_half_even_near (Zpos n) (Zpos d * 2 ^ e)
                    ltac:(lia)) as Hnear.
      set (m := round_half_even _ _) in *.
      specialize (Hhi ltac:(lia)).
      replace (2 ^ fl)%Z with (2 ^ e * 2 ^ 52)%Z in Hhi
        by (rewrite <- Z.pow_add_r by lia; f_equal; lia).
      split; [lia|]. left.
      replace (m * 2 ^ e * Zpos d)%Z with (m * (Zpos d * 2 ^ e))%Z by lia.
      lia.
  - replace (Z.max (fl - 52) (-1074)) with (-1074)%Z by lia.
    change (-1074 <=? 0)%Z with true. change (0 <=? -1074)%Z with false.
    cbv iota.
    pose proof (round_half_even_near (Zpos n * 2 ^ (- -1074)) (Zpos d)
                  ltac:(lia)) as Hnear.
    set (m := round_half_even _ _) in *.
    split; [by apply Z.pow_pos_nonneg|]. right.
    change (2 ^ 1075)%Z with (2 * 2 ^ (- -1074))%Z.
    assert (Hp : (0 < 2 ^ (- -1074))%Z) by (by apply Z.pow_pos_nonneg).
    set (P := (2 ^ (- -1074))%Z) in *. clearbody P. nia.
Qed.

Lemma this_minus (r q : Qc) : (this (r - q) == this r - this q)%Q.
Proof.
  unfold Qcminus, Qcplus, Qcopp, Q2Qc. simpl this.
  rewrite !Qred_correct. reflexivity.
Qed.

Lemma this_mult (a b : Qc) : (this (a * b) == this a * this b)%Q.
Proof. unfold Qcmult, Q2Qc. simpl this. apply Qred_correct. Qed.

Lemma this_pow2 k : (this (pow2 k) == inject_Z (2 ^ k))%Q.
Proof. unfold pow2, Q2Qc. simpl this. apply Qred_correct. Qed.

Lemma close_of_Z (q r : Qc) (rn rd : Z) :
  (0 < rd)%Z ->
  (this r == rn # Z.to_pos rd)%Q ->
  ((Z.abs (rn * Zpos (Qden q) - Qnum q * rd) * 2 ^ 53
    <= Z.abs (Qnum q) * rd)%Z
   ∨ (Z.abs (rn * Zpos (Qden q) - Qnum q * rd) * 2 ^ 1075
      <= rd * Zpos (Qden q))%Z) ->
  close_to q r.
Proof.
  intros Hrd Hr H. unfold close_to, Qcle.
  assert (Habs : (this (Qcabs.Qcabs (r - q))
                  == Z.abs (rn * Zpos (Qden q) - Qnum q * rd)
                     # (Z.to_pos rd * Qden q))%Q).
  { change (this (Qcabs.Qcabs (r - q))) with (Qabs (this (r - q))).
    rewrite this_minus, Hr. destruct q as [[qn qd] Cq]. simpl.
    unfold Qminus, Qplus, Qopp, Qabs. simpl.
    rewrite Z2Pos.id by done.
    replace (rn * Z.pos qd + - qn * rd)%Z with (rn * Z.pos qd - qn * rd)%Z
      by lia.
    reflexivity. }
  rewrite !this_mult, !this_pow2, Habs.
  change (this (Qcabs.Qcabs q)) with (Qabs (this q)).
  destruct q as [[qn qd] Cq]. simpl in *.
  set (A := Z.abs (rn * Z.pos qd - qn * rd)) in *.
  assert (0 <= A)%Z by (unfold A; lia).
  unfold Qle. simpl. rewrite !Pos2Z.inj_mul, !Z2Pos.id by done.
  destruct H as [H|H]; [left|right].
  - set (B := Z.abs qn) in *. set (P := (2 ^ 53)%Z) in *.
    assert (0 <= B)%Z by (unfold B; lia). clearbody A B P.
    assert (A * P * Z.pos qd <= B * rd * Z.pos qd)%Z
      by (apply Z.mul_le_mono_nonneg_r; lia).
    lia.
  - set (P := (2 ^ 1075)%Z) in *. clearbody A P. lia.
Qed.

Lemma scale2_frac m e :
  (scale2 m e == scale2_num m e # Z.to_pos (scale2_den m e))%Q.
Proof.
  unfold scale2, scale2_num, scale2_den.
  destruct (0 <=? e)%Z; reflexivity.
Qed.

Lemma close_to_refl q : close_to q q.
Proof.
  left. replace (q - q) with 0 by ring.
  replace (Qcabs.Qcabs 0) with 0 by (by apply Qc_is_canon).
  replace (0 * pow2 53) with 0 by ring. apply Qcabs.Qcabs_nonneg.
Qed.

(** The float that [round64] gives is within half a unit in the last
    place of the number rounded. *)
Lemma round64_close q r : round64 q = Ok r -> close_to q r.
Proof.
  unfold round64.
  destruct (Qnum q) as [|n|n] eqn:Hn.
  - intros [= <-]. apply close_to_refl.
  - pose proof (round64_pos_close n (Qden q)) as Hc.
    destruct (round64_pos n (Qden q)) as [m e]. simpl in Hc.
    destruct (overflows m e); [done|]. intros [= <-].
    destruct Hc as [Hrd Hc].
    apply (close_of_Z q _ (scale2_num m e) (scale2_den m e) Hrd).
    + unfold Q2Qc. simpl this. by rewrite Qred_correct, scale2_frac.
    + rewrite Hn. exact Hc.
  - pose proof (round64_pos_close n (Qden q)) as Hc.
    destruct (round64_pos n (Qden q)) as [m e]. simpl in Hc.
    destruct (overflows m e); [done|]. intros [= <-].
    destruct Hc as [Hrd Hc].
    apply (close_of_Z q _ (- scale2_num m e) (scale2_den m e) Hrd).
    + unfold Qcopp, Q2Qc. simpl this.
      rewrite !Qred_correct, scale2_frac. reflexivity.
    + rewrite Hn.
      replace (- scale2_num m e * Z.pos (Qden q) - Z.neg n * scale2_den m e)%Z
        with (- (scale2_num m e * Z.pos (Qden q) - Z.pos n * scale2_den m e))%Z
        by lia.
      rewrite Z.abs_opp. exact Hc.
Qed.

Lemma round_half_even_ge N D :
  (0 < D)%Z -> (N / D <= round_half_even N D)%Z.
Proof.
  intros HD. unfold round_half_even.
  destruct (2 * (N mod D) ?= D)%Z; [destruct (Z.even _)| |]; lia.
Qed.

Lemma floor_log2_lt (n d : positive) :
  (Zpos d <= Zpos n)%Z ->
  (Zpos n < Zpos d * 2 ^ (floor_log2 n d + 1))%Z.
Proof.
  intros Hle. unfold floor_log2.
  pose proof (Z.log2_spec (Zpos n) eq_refl) as [Hn1 Hn2].
  pose proof (Z.log2_spec (Zpos d) eq_refl) as [Hd1 Hd2].
  pose proof (Z.log2_nonneg (Zpos d)) as Hd0.
  pose proof (Z.log2_le_mono _ _ Hle) as Hmono.
  set (ln := Z.log2 (Zpos n)) in *. set (ld := Z.log2 (Zpos d)) in *.
  rewrite (proj2 (Z.leb_le 0 (ln - ld))) by lia.
  destruct (Z.leb_spec (Zpos d * 2 ^ (ln - ld)) (Zpos n)) as [Ht|Ht].
  - assert (Hpow : (2 ^ Z.succ ln = 2 ^ ld * 2 ^ (ln - ld + 1))%Z).
    { rewrite <- Z.pow_add_r by lia. f_equal. lia. }
    assert (0 < 2 ^ (ln - ld + 1))%Z by (apply Z.pow_pos_nonneg; lia).
    nia.
  - replace (ln - ld - 1 + 1)%Z with (ln - ld)%Z by lia. exact Ht.
Qed.

Lemma round64_pos_huge (n d : positive) :
  (2 ^ 1024 * Zpos d <= Zpos n)%Z ->
  overflows (fst (round64_pos n d)) (snd (round64_pos n d)) = true.
Proof.
  intros Hge.
  assert (H1024 : (0 < 2 ^ 1024)%Z) by (by apply Z.pow_pos_nonneg).
  assert (Hle : (Zpos d <= Zpos n)%Z) by nia.
  pose proof (floor_log2_lt n d Hle) as Hlt.
  unfold round64_pos, overflows. cbv zeta. simpl fst. simpl snd.
  set (fl := floor_log2 n d) in *.
  assert (Hfl : (1024 <= fl)%Z).
  { destruct (Z.le_gt_cases 1024 fl) as [|Hsmall]; [done|]. exfalso.
    assert (2 ^ (fl + 1) <= 2 ^ 1024)%Z.
    { destruct (Z.le_gt_cases 0 (fl + 1)).
      - apply Z.pow_le_mono_r; lia.
      - rewrite Z.pow_neg_r by lia. lia. }
    nia. }
  pose proof (floor_log2_le n d ltac:(fold fl; lia)) as Hlow. fold fl in Hlow.
  replace (Z.max (fl - 52) (-1074)) with (fl - 52)%Z by lia.
  set (e := (fl - 52)%Z) in *.
  assert (Hp : (0 < 2 ^ e)%Z) by (apply Z.pow_pos_nonneg; lia).
  rewrite (proj2 (Z.leb_le 0 e)) by lia.
  rewrite (proj2 (Z.leb_gt e 0)) by lia. simpl.
  apply Z.leb_le.
  pose proof (round_half_even_ge (Zpos n) (Zpos d * 2 ^ e) ltac:(lia)) as Hm.
  assert (Hfle : (2 ^ fl = 2 ^ 52 * 2 ^ e)%Z)
    by (rewrite <- Z.pow_add_r by lia; f_equal; lia).
  assert (Hq : (2 ^ 52 <= Zpos n / (Zpos d * 2 ^ e))%Z)
    by (apply Z.div_le_lower_bound; [lia|nia]).
  assert (H1 : (2 ^ 1024 <= 2 ^ fl)%Z) by (apply Z.pow_le_mono_r; lia).
  set (m := round_half_even _ _) in *. nia.
Qed.

Lemma round64_huge q : huge q = true -> round64 q = Raise OverflowError.
Proof.
  unfold huge, round64. intros H%Z.leb_le.
  assert (H1024 : (0 < 2 ^ 1024)%Z) by (by apply Z.pow_pos_nonneg).
  destruct (Qnum q) as [|n|n] eqn:Hn; [simpl in H; lia| |].
  - pose proof (round64_pos_huge n (Qden q) ltac:(lia)) as Hr.
    destruct (round64_pos n (Qden q)) as [m e]. simpl in Hr. by rewrite Hr.
  - pose proof (round64_pos_huge n (Qden q) ltac:(lia)) as Hr.
    destruct (round64_pos n (Qden q)) as [m e]. simpl in Hr. by rewrite Hr.
Qed.

(** ** The classification (lines 83-99) *)

Lemma analyse_inv cfg a pair r :
  analyse cfg a pair = Ok r ->
  ∃ snap,
    extract pair = Ok snap
    ∧ as_number (snap_liquidity_usd snap) = Ok (liquidity_usd r)
    ∧ as_number (snap_buys_m5 snap) = Ok (buys_m5 r)
    ∧ as_number (snap_sells_m5 snap) = Ok (sells_m5 r)
    ∧ compute_ratio (snap_buys_m5 snap) (snap_sells_m5 snap)
      = Ok (buy_sell_ratio r)
    ∧ classify cfg (liquidity_usd r) (buys_m5 r) (sells_m5 r) (buy_sell_ratio r)
      = (is_trustworthy r, reasons r).
Proof.
  unfold analyse. intros H.
  destruct (extract pair) as [snap|]; [|done]. simpl in H.
  destruct (compute_ratio _ _) as [ratio|] eqn:Hratio; [|done]. simpl in H.
  destruct (as_number (snap_liquidity_usd snap)) as [l|] eqn:Hl; [|done].
  simpl in H.
  destruct (as_number (snap_buys_m5 snap)) as [b|] eqn:Hb; [|done].
  simpl in H.
  destruct (as_number (snap_sells_m5 snap)) as [s|] eqn:Hs; [|done].
  simpl in H.
  destruct (format_low_liquidity cfg l) as [[]|]; [|done]. simpl in H.
  destruct (classify cfg l b s ratio) as [t rs] eqn:Hc.
  inversion H; subst; simpl. by exists snap.
Qed.

Lemma new_reports_analysed cfg f s r :
  r ∈ new_reports cfg f s ->
  ∃ p, p ∈ items_of f ∧ analyse cfg (pair_address r) p = Ok r.
Proof.
  intros Hr. destruct (new_reports_post cfg f s) as (_ & _ & Hrs).
  destruct (Hrs r Hr) as (k & p & _ & _ & _ & Hfirst & Han).
  exists p. split; [|done].
  unfold first_with_key in Hfirst.
  destruct (list_find _ _) as [[i q]|] eqn:Hfind; [|done].
  simpl in Hfirst. inversion Hfirst; subst.
  apply list_find_Some in Hfind as (Hi & _).
  by eapply list_elem_of_lookup_2.
Qed.

Lemma classify_spec cfg l b s ratio :
  let v := classify cfg l b s ratio in
  let L := LowLiquidity l (MIN_LIQUIDITY_USD cfg) in
  let V := LowVolume (b + s) (MIN_TXNS_M5 cfg) in
  let R := UnbalancedRatio ratio in
  (v.1 = true ↔
     MIN_LIQUIDITY_USD cfg ≤ l
     ∧ MIN_TXNS_M5 cfg ≤ b + s
     ∧ BUY_SELL_RATIO_MIN cfg ≤ ratio ≤ BUY_SELL_RATIO_MAX cfg)
  ∧ (L ∈ v.2 ↔ l < MIN_LIQUIDITY_USD cfg)
  ∧ (V ∈ v.2 ↔ b + s < MIN_TXNS_M5 cfg)
  ∧ (R ∈ v.2 ↔ ¬ (BUY_SELL_RATIO_MIN cfg ≤ ratio ≤ BUY_SELL_RATIO_MAX cfg))
  ∧ v.2 `sublist_of` [L; V; R]
  ∧ (v.2 = [] ↔ v.1 = true).
Proof.
  intros v L V R. subst v L V R. unfold classify.
  destruct (bool_decide (l < MIN_LIQUIDITY_USD cfg)) eqn:HL;
  destruct (bool_decide (b + s < MIN_TXNS_M5 cfg)) eqn:HV;
  destruct (bool_decide (BUY_SELL_RATIO_MIN cfg ≤ ratio)) eqn:H1;
  destruct (bool_decide (ratio ≤ BUY_SELL_RATIO_MAX cfg)) eqn:H2;
  simpl;
  try apply bool_decide_eq_true_1 in HL; try apply bool_decide_eq_false_1 in HL;
  try apply bool_decide_eq_true_1 in HV; try apply bool_decide_eq_false_1 in HV;
  try apply bool_decide_eq_true_1 in H1; try apply bool_decide_eq_false_1 in H1;
  try apply bool_decide_eq_true_1 in H2; try apply bool_decide_eq_false_1 in H2;
  try apply Qcnot_lt_le in HL; try apply Qcnot_lt_le in HV;
  split_and!.
  all: try (sublist_of_three; fail).
  all: rewrite ?elem_of_cons, ?elem_of_nil.
  all: split; intros; destruct_and?; destruct_or?; try done; try qc_contra.
  all: naive_solver.
Qed.

(** C1.  Every report printed by a poll is the classification of a pair
    object of the listing: its liquidity and counts are the ones
    extracted from that pair object and its ratio is the one line 80
    computes from these counts.  It carries the verdict of the three
    checks on these figures: it is marked trustworthy exactly when the
    liquidity is at least the minimum, the number of transactions is at
    least the minimum and the ratio lies in the closed interval; each of
    the three reasons is listed exactly when its check fails (so all three
    checks are made, whatever the earlier ones gave); the reasons are a
    sublist of liquidity, volume, ratio in that order; and the list is
    empty exactly when the report is marked trustworthy. *)
Theorem verdict_iff_checks cfg f s r :
  r ∈ new_reports cfg f s ->
  let L := LowLiquidity (liquidity_usd r) (MIN_LIQUIDITY_USD cfg) in
  let V := LowVolume (buys_m5 r + sells_m5 r) (MIN_TXNS_M5 cfg) in
  let R := UnbalancedRatio (buy_sell_ratio r) in
  (∃ p snap,
     p ∈ items_of f
     ∧ extract p = Ok snap
     ∧ as_number (snap_liquidity_usd snap) = Ok (liquidity_usd r)
     ∧ as_number (snap_buys_m5 snap) = Ok (buys_m5 r)
     ∧ as_number (snap_sells_m5 snap) = Ok (sells_m5 r)
     ∧ compute_ratio (snap_buys_m5 snap) (snap_sells_m5 snap)
       = Ok (buy_sell_ratio r))
  ∧ (is_trustworthy r = true ↔
       liquidity_ok cfg r ∧ volume_ok cfg r ∧ ratio_ok cfg r)
  ∧ (L ∈ reasons r ↔ liquidity_usd r < MIN_LIQUIDITY_USD cfg)
  ∧ (V ∈ reasons r ↔ buys_m5 r + sells_m5 r < MIN_TXNS_M5 cfg)
  ∧ (R ∈ reasons r ↔ ¬ ratio_ok cfg r)
  ∧ reasons r `sublist_of` [L; V; R]
  ∧ (reasons r = [] ↔ is_trustworthy r = true).
Proof.
  intros Hr. destruct (new_reports_analysed _ _ _ _ Hr) as (p & Hp & Han).
  destruct (analyse_inv _ _ _ _ Han)
    as (snap & Hx & Hl & Hb & Hs & Hratio & Hc).
  pose proof (classify_spec cfg (liquidity_usd r) (buys_m5 r) (sells_m5 r)
                (buy_sell_ratio r)) as Hspec.
  rewrite Hc in Hspec. split; [|exact Hspec].
  by exists p, snap.
Qed.

(** The same for the default thresholds, on the second scenario of the
    specification: liquidity 1000, 5 buys, 2 sells. *)
Lemma verdict_iff_checks_witness :
  let f := listing [mk_pair "0xb" (Q2Qc 1000) (Q2Qc 5) (Q2Qc 2)] in
  ∃ r, new_reports default_config f initial_state = [r]
       ∧ is_trustworthy r = false
       ∧ reasons r = [LowLiquidity (Q2Qc 1000) (Q2Qc 5000);
                      LowVolume (Q2Qc 7) (Q2Qc 10)]
       ∧ compute_ratio (VNum (Q2Qc 5)) (VNum (Q2Qc 2))
         = Ok (buy_sell_ratio r)
       ∧ (is_trustworthy r = true ↔
            liquidity_ok default_config r ∧ volume_ok default_config r
            ∧ ratio_ok default_config r).
Proof.
  intros f.
  assert (Hnew : ∃ r, new_reports default_config f initial_state = [r]).
  { eexists. vm_compute. reflexivity. }
  destruct Hnew as [r Hnew]. exists r.
  assert (Hr : r ∈ new_reports default_config f initial_state)
    by (rewrite Hnew; apply list_elem_of_here).
  pose proof (verdict_iff_checks default_config f initial_state r Hr)
    as (Hpair & Hv & _).
  destruct Hpair as (p & snap & Hp & Hx & _ & _ & _ & Hratio).
  apply list_elem_of_singleton in Hp. subst p.
  vm_compute in Hx. inversion Hx; subst snap. simpl in Hratio.
  vm_compute in Hnew. inversion Hnew; subst r.
  split_and!; [done|done| |exact Hratio|apply Hv].
  simpl. repeat f_equal; apply Qc_is_canon; reflexivity.
Defined.

(** ** The buy/sell ratio (line 80) *)

Lemma compute_ratio_numbers bv sv b s :
  as_number bv = Ok b -> as_number sv = Ok s ->
  compute_ratio bv sv
  = if bool_decide (0 < s) then truediv b s
    else if bool_decide (0 < b) then truediv b 1 else Ok 1.
Proof.
  intros Hb Hs. unfold compute_ratio. rewrite Hs. simpl.
  case_bool_decide; rewrite Hb; simpl; done.
Qed.

Lemma truediv_moderate b s :
  integral b = true -> integral s = true -> 0 < s -> moderate b = true ->
  is_ok (truediv b s) = true.
Proof.
  intros Hb Hs Hpos Hm. unfold truediv. rewrite Hb, Hs. simpl.
  rewrite bool_decide_eq_false_2.
  - by apply round64_moderate, moderate_div.
  - intros ->. by apply (irreflexivity Qclt 0).
Qed.

Lemma compute_ratio_moderate bv sv :
  moderate_count bv = true -> moderate_count sv = true ->
  is_ok (compute_ratio bv sv) = true.
Proof.
  unfold moderate_count. intros Hb Hs.
  destruct (as_number bv) as [b|] eqn:Eb; [|done].
  destruct (as_number sv) as [s|] eqn:Es; [|done].
  apply andb_prop in Hb as [Hbi Hbm]. apply andb_prop in Hs as [Hsi Hsm].
  rewrite (compute_ratio_numbers _ _ _ _ Eb Es).
  case_bool_decide; [by apply truediv_moderate|].
  case_bool_decide; [|done]. by apply truediv_moderate.
Qed.

(** C2, as stated, fails: the ratio is a float.  20 buys and 15 sells
    give 6004799503160661 / 2^52, the float nearest to 4/3, not 4/3;
    2^53 + 1 buys and no sell give 2^53, not the number of buys; and
    10^400 buys and one sell give no ratio at all: the division raises
    OverflowError. *)
Lemma ratio_is_a_float :
  (∃ r, compute_ratio (VNum (Q2Qc 20)) (VNum (Q2Qc 15)) = Ok r
        ∧ r = Q2Qc (6004799503160661 # 4503599627370496)
        ∧ r ≠ Q2Qc 20 / Q2Qc 15)
  ∧ (∃ r, compute_ratio (VNum (pow2 53 + 1)) (VNum 0) = Ok r
          ∧ r = pow2 53
          ∧ r ≠ pow2 53 + 1)
  ∧ compute_ratio (VNum (Q2Qc (inject_Z (10 ^ 400)))) (VNum (Q2Qc 1))
    = Raise OverflowError.
Proof.
  split_and!.
  - destruct (compute_ratio (VNum (Q2Qc 20)) (VNum (Q2Qc 15))) as [r|e] eqn:E;
      vm_compute in E; [|discriminate E].
    exists r. injection E as <-.
    split_and!; [done|by apply Qc_is_canon|].
    intros H. apply (f_equal (fun q => Qnum (this q))) in H.
    vm_compute in H. discriminate H.
  - destruct (compute_ratio (VNum (pow2 53 + 1)) (VNum 0)) as [r|e] eqn:E;
      vm_compute in E; [|discriminate E].
    exists r. injection E as <-.
    split_and!; [done|by apply Qc_is_canon|].
    intros H. apply (f_equal (fun q => Qnum (this q))) in H.
    vm_compute in H. discriminate H.
  - vm_compute. reflexivity.
Qed.

(** C2, amended.  The ratio is the float quotient [buys / sells] when
    sells > 0, the float quotient [buys / 1] when sells = 0 and buys > 0,
    and 1 when both are 0.  For whole counts, as those of a snapshot are,
    the float quotient is the exact quotient rounded: it is within half a
    unit in the last place of it (a relative error of 2^-53 at most); it
    equals it when it is a whole number below 2^53 in magnitude, so that
    the ratio equals buys for sells = 0 and 0 < buys < 2^53; it exists
    whenever buys is below 2^1023 in magnitude; and from a quotient of
    2^1024 on there is none: the division raises OverflowError. *)
Theorem buy_sell_ratio_cases bv sv b s :
  as_number bv = Ok b -> as_number sv = Ok s ->
  (0 < s -> compute_ratio bv sv = truediv b s)
  ∧ (s = 0 -> 0 < b -> compute_ratio bv sv = truediv b 1)
  ∧ (s = 0 -> b = 0 -> compute_ratio bv sv = Ok 1)
  ∧ (integral b = true -> integral s = true ->
     (0 < s -> ∀ r, compute_ratio bv sv = Ok r -> close_to (b / s) r)
     ∧ (0 < s -> integral (b / s) = true ->
        (Z.abs (Qnum (b / s)%Qc) < 2 ^ 53)%Z ->
        compute_ratio bv sv = Ok (b / s))
     ∧ (s = 0 -> 0 < b -> (Qnum b < 2 ^ 53)%Z -> compute_ratio bv sv = Ok b)
     ∧ (moderate b = true -> ∃ r, compute_ratio bv sv = Ok r)
     ∧ (0 < s -> huge (b / s) = true ->
        compute_ratio bv sv = Raise OverflowError)).
Proof.
  intros Hb Hs. rewrite (compute_ratio_numbers _ _ _ _ Hb Hs).
  assert (Hzero : bool_decide (0 < 0) = false)
    by (apply bool_decide_eq_false_2, (irreflexivity Qclt)).
  split_and!.
  - intros Hpos. by rewrite bool_decide_eq_true_2.
  - intros -> Hpos. by rewrite Hzero, bool_decide_eq_true_2.
  - intros -> ->. by rewrite Hzero.
  - intros Hbi Hsi.
    assert (Hdiv : ∀ d, integral d = true -> 0 < d ->
                        truediv b d = round64 (b / d)).
    { intros d Hd Hpos. unfold truediv. rewrite Hbi, Hd. simpl.
      rewrite bool_decide_eq_false_2; [done|].
      intros ->. by apply (irreflexivity Qclt 0). }
    split_and!.
    + intros Hpos r. rewrite bool_decide_eq_true_2, Hdiv by done.
      apply round64_close.
    + intros Hpos Hwhole Hsmall.
      rewrite bool_decide_eq_true_2, Hdiv by done.
      by apply round64_small_int.
    + intros -> Hpos Hsmall.
      rewrite Hzero, bool_decide_eq_true_2, Hdiv by done.
      rewrite (right_id 1 Qcdiv). apply round64_small_int; [done|].
      assert (0 < Qnum b)%Z; [|lia].
      unfold Qclt, Qlt in Hpos. simpl in Hpos. lia.
    + intros Hm.
      assert (Hok : ∀ d, integral d = true -> 0 < d ->
                         ∃ r, truediv b d = Ok r).
      { intros d Hd Hpos. pose proof (truediv_moderate b d Hbi Hd Hpos Hm).
        destruct (truediv b d) as [r|]; [by exists r|done]. }
      clear Hzero. case_bool_decide; [by apply Hok|].
      case_bool_decide; [by apply Hok|by exists 1].
    + intros Hpos Hhuge. rewrite bool_decide_eq_true_2, Hdiv by done.
      by apply round64_huge.
Qed.

(** 20 buys and 15 sells give the float quotient, close to 4/3; 100 buys
    and 4 sells give 25; 7 buys and no sell give 7; no transaction gives
    1. *)
Lemma buy_sell_ratio_cases_witness :
  compute_ratio (VNum (Q2Qc 20)) (VNum (Q2Qc 15))
  = truediv (Q2Qc 20) (Q2Qc 15)
  ∧ (∀ r, compute_ratio (VNum (Q2Qc 20)) (VNum (Q2Qc 15)) = Ok r ->
          close_to (Q2Qc 20 / Q2Qc 15) r)
  ∧ compute_ratio (VNum (Q2Qc 100)) (VNum (Q2Qc 4))
    = Ok (Q2Qc 100 / Q2Qc 4)
  ∧ compute_ratio (VNum (Q2Qc 7)) (VNum 0) = Ok (Q2Qc 7)
  ∧ compute_ratio (VNum 0) (VNum 0) = Ok 1.
Proof.
  split_and!.
  - apply (buy_sell_ratio_cases (VNum (Q2Qc 20)) (VNum (Q2Qc 15)) _ _
             eq_refl eq_refl).
    reflexivity.
  - apply (buy_sell_ratio_cases (VNum (Q2Qc 20)) (VNum (Q2Qc 15)) _ _
             eq_refl eq_refl); reflexivity.
  - apply (buy_sell_ratio_cases (VNum (Q2Qc 100)) (VNum (Q2Qc 4)) _ _
             eq_refl eq_refl); reflexivity.
  - apply (buy_sell_ratio_cases (VNum (Q2Qc 7)) (VNum 0) _ _
             eq_refl eq_refl); reflexivity.
  - apply (buy_sell_ratio_cases (VNum 0) (VNum 0) _ _ eq_refl eq_refl);
      reflexivity.
Defined.

(** The rounding can decide the verdict: 10^17 - 1 buys and 10^18 sells
    give the float 0.1, which passes the minimum ratio, while the exact
    quotient is below it. *)
Example rounding_decides_the_verdict :
  let b := Q2Qc (inject_Z (10 ^ 17 - 1)) in
  let s := Q2Qc (inject_Z (10 ^ 18)) in
  ∃ r, compute_ratio (VNum b) (VNum s) = Ok r
       ∧ BUY_SELL_RATIO_MIN default_config ≤ r
       ∧ b / s < BUY_SELL_RATIO_MIN default_config.
Proof.
  intros b s.
  destruct (compute_ratio (VNum b) (VNum s)) as [r|e] eqn:E;
    vm_compute in E; [|discriminate E].
  exists r. injection E as <-. split_and!; [done| |]; by vm_compute.
Qed.

(** Half a unit in the last place is a narrow margin: 1 is not close to
    4/3, nor 2^53 + 1 to 2^53 + 4. *)
Example not_close_to :
  ¬ close_to (Q2Qc (4 # 3)) 1 ∧ ¬ close_to (pow2 53 + Q2Qc 4) (pow2 53 + 1).
Proof. split; intros [H|H]; vm_compute in H; by apply H. Qed.

(** The ratio shown in a report is the one of line 80 for the counts shown
    in it. *)
Lemma report_ratio cfg f s r :
  r ∈ new_reports cfg f s ->
  compute_ratio (VNum (buys_m5 r)) (VNum (sells_m5 r))
  = Ok (buy_sell_ratio r).
Proof.
  intros Hr. destruct (new_reports_analysed _ _ _ _ Hr) as (p & _ & Han).
  destruct (analyse_inv _ _ _ _ Han) as (snap & _ & _ & Hb & Hs & Hratio & _).
  rewrite (compute_ratio_numbers _ _ _ _ Hb Hs) in Hratio.
  by rewrite (compute_ratio_numbers _ _ (buys_m5 r) (sells_m5 r)).
Qed.

(** ** The seen set across polls *)

Lemma filter_none {A} (P : A -> Prop) `{!∀ x, Decision (P x)} (l : list A) :
  (∀ x, x ∈ l -> ¬ P x) -> filter P l = [].
Proof.
  induction l as [|x l IH]; intros Hall; [done|].
  rewrite filter_cons_False by (apply Hall; left).
  apply IH. intros y Hy. apply Hall. by right.
Qed.

Lemma tracked_pairs_mono cfg f s :
  tracked_pairs s ⊆ tracked_pairs (fst (check_new_tokens cfg f s)).
Proof. by destruct (new_reports_post cfg f s) as (Hsub & _). Qed.

Lemma tracked_not_reported cfg f s k :
  k ∈ tracked_pairs s -> reports_for k (printed cfg f s) = [].
Proof.
  intros Hk. unfold reports_for. fold (new_reports cfg f s).
  destruct (new_reports_post cfg f s) as (_ & _ & Hrs).
  apply filter_none. intros r Hr Hkey.
  destruct (Hrs r Hr) as (k' & _ & Hkey' & Hnew & _).
  rewrite Hkey in Hkey'. inversion Hkey'; subst. done.
Qed.

Lemma reports_for_app k a b :
  reports_for k (a ++ b) = (reports_for k a ++ reports_for k b)%list.
Proof. unfold reports_for. by rewrite reports_app, list.filter_app. Qed.

Lemma poll_loop_tracked cfg fs :
  ∀ s k, k ∈ tracked_pairs s ->
         k ∈ tracked_pairs (fst (poll_loop cfg fs s))
         ∧ reports_for k (stdout (fst (poll_loop cfg fs s)))
           = reports_for k (stdout s).
Proof.
  induction fs as [|f fs IH]; intros s k Hk; [done|].
  simpl.
  pose proof (tracked_pairs_mono cfg f s) as Hsub.
  pose proof (tracked_not_reported cfg f s k Hk) as Hnone.
  pose proof (printed_spec cfg f s) as Hout.
  destruct (check_new_tokens cfg f s) as [s' [e|]]; simpl in *.
  - split; [by apply Hsub|].
    by rewrite Hout, reports_for_app, Hnone, app_nil_r.
  - destruct (IH s' k (Hsub k Hk)) as [Hin Hsame]. split; [done|].
    by rewrite Hsame, Hout, reports_for_app, Hnone, app_nil_r.
Qed.

Lemma tracker_inv_print l s :
  reports [l] = [] -> tracker_inv s -> tracker_inv (fst (print l s)).
Proof.
  intros Hl [Hnd Hin]. unfold tracker_inv. simpl.
  by rewrite reports_app, Hl, app_nil_r.
Qed.

Lemma tracker_inv_check_new_tokens cfg f s :
  tracker_inv s -> tracker_inv (fst (check_new_tokens cfg f s)).
Proof.
  intros [Hnd Hin]. unfold tracker_inv.
  rewrite reports_check_new_tokens.
  destruct (new_reports_post cfg f s) as (Hsub & Hnd' & Hrs).
  split.
  - rewrite fmap_app. apply list.NoDup_app. split_and!; [done| |done].
    intros x Hold Hnew.
    apply list_elem_of_fmap in Hold as (r & -> & Hr).
    apply list_elem_of_fmap in Hnew as (r' & Heq & Hr').
    destruct (Hin r Hr) as (k & Hk & Hktr).
    destruct (Hrs r' Hr') as (k' & _ & Hk' & Hfresh & _).
    rewrite Hk, Hk' in Heq. inversion Heq; subst. done.
  - intros r Hr. apply elem_of_app in Hr as [Hr|Hr].
    + destruct (Hin r Hr) as (k & Hk & Hktr). exists k. split; [done|].
      by apply Hsub.
    + destruct (Hrs r Hr) as (k & _ & Hk & _ & Hktr & _). by exists k.
Qed.

Lemma tracker_inv_poll_loop cfg fs :
  ∀ s, tracker_inv s -> tracker_inv (fst (poll_loop cfg fs s)).
Proof.
  induction fs as [|f fs IH]; intros s Hinv; [done|].
  simpl. pose proof (tracker_inv_check_new_tokens cfg f s Hinv) as Hinv'.
  destruct (check_new_tokens cfg f s) as [s' [e|]]; simpl in *; [done|].
  by apply IH.
Qed.

Lemma tracker_inv_main cfg fs : tracker_inv (fst (main cfg fs)).
Proof.
  assert (H0 : tracker_inv (fst (print Started initial_state))).
  { split; [constructor|]. intros r Hr. inversion Hr. }
  unfold main. destruct fs as [|f fs]; [done|].
  pose proof (tracker_inv_check_new_tokens cfg f _ H0) as H1.
  destruct (check_new_tokens cfg f _) as [s1 [e|]]; simpl in *; [done|].
  pose proof (tracker_inv_poll_loop cfg fs s1 H1) as H2.
  destruct (poll_loop cfg fs s1) as [s2 [[]|]]; simpl in *; try done.
  by apply (tracker_inv_print Stopped).
Qed.

Lemma NoDup_fmap_filter_length {A B} `{EqDecision B} (g : A -> B) (y : B)
    (l : list A) :
  NoDup (g <$> l) -> (length (filter (fun x => g x = y) l) ≤ 1)%nat.
Proof.
  induction l as [|x l IH]; intros Hnd; [simpl; lia|].
  rewrite fmap_cons in Hnd. apply list.NoDup_cons in Hnd as [Hx Hnd].
  rewrite filter_cons. case_decide as Hgx; [|by apply IH].
  assert (Hnil : filter (fun x => g x = y) l = []).
  { apply filter_none. intros x' Hx' Hgx'.
    apply Hx. rewrite Hgx, <- Hgx'. by apply list_elem_of_fmap_2. }
  rewrite Hnil. simpl. lia.
Qed.

(** C3.  In a run of the program, whatever the provider answers, at most
    one report is ever printed for a given pair identifier.  And an
    identifier that is in the seen set stays in it through any further
    polls, none of which prints a report for it, whatever field values the
    provider then lists under it. *)
Theorem one_verdict_per_identifier cfg fs k :
  (length (reports_for k (stdout (fst (main cfg fs)))) ≤ 1)%nat
  ∧ ∀ s, k ∈ tracked_pairs s ->
         k ∈ tracked_pairs (fst (poll_loop cfg fs s))
         ∧ reports_for k (stdout (fst (poll_loop cfg fs s)))
           = reports_for k (stdout s).
Proof.
  split.
  - destruct (tracker_inv_main cfg fs) as [Hnd _].
    by apply NoDup_fmap_filter_length.
  - intros s Hk. by apply poll_loop_tracked.
Qed.

(** The provider lists 0xa, then lists it again with other figures: the
    second poll prints nothing for it. *)
Lemma one_verdict_per_identifier_witness :
  let s1 := fst (check_new_tokens default_config (listing [pair_a])
                   initial_state) in
  let s2 := fst (poll_loop default_config [listing [pair_a_changed]] s1) in
  HStr "0xa" ∈ tracked_pairs s1
  ∧ HStr "0xa" ∈ tracked_pairs s2
  ∧ reports_for (HStr "0xa") (stdout s2) = reports_for (HStr "0xa") (stdout s1).
Proof.
  intros s1 s2.
  assert (Hin : HStr "0xa" ∈ tracked_pairs s1).
  { apply (bool_decide_unpack _). vm_compute. exact I. }
  split; [exact Hin|].
  exact (proj2 (one_verdict_per_identifier default_config
                  [listing [pair_a_changed]] (HStr "0xa")) s1 Hin).
Defined.

(** ** Polls that find nothing *)

Lemma new_reports_print cfg f s l :
  reports [l] = [] ->
  fst (check_new_tokens cfg f s) = fst (print l s) ->
  printed cfg f s = [l] ∧ new_reports cfg f s = [].
Proof.
  intros Hl Heq. unfold new_reports, printed. rewrite Heq. simpl.
  by rewrite drop_app_length.
Qed.

(** C4.  When the fetch raises an exception (a connection error, a time
    out, the HTTP error of a bad status, a body that does not decode), the
    poll prints one error line and no report, leaves the seen set as it
    was, and lets no exception out. *)
Theorem fetch_failure_is_contained cfg e s :
  is_Exception e = true ->
  let s' := fst (check_new_tokens cfg (FetchRaises e) s) in
  printed cfg (FetchRaises e) s
  = [if is_RequestException e then ErrorFetching e else UnexpectedError e]
  ∧ new_reports cfg (FetchRaises e) s = []
  ∧ snd (check_new_tokens cfg (FetchRaises e) s) = None
  ∧ tracked_pairs s' = tracked_pairs s.
Proof.
  intros He s'. subst s'.
  assert (Hrun : check_new_tokens cfg (FetchRaises e) s
                 = (fst (print (if is_RequestException e then ErrorFetching e
                                else UnexpectedError e) s), None)).
  { unfold check_new_tokens, try_block, bind, lift. simpl.
    destruct (is_RequestException e); [done|]. by rewrite He. }
  destruct (new_reports_print cfg (FetchRaises e) s
              (if is_RequestException e then ErrorFetching e
               else UnexpectedError e)) as [Hp Hn].
  { by destruct (is_RequestException e). }
  { by rewrite Hrun. }
  rewrite Hrun. done.
Qed.

(** A time out on a tracker that has seen 0xa. *)
Lemma fetch_failure_is_contained_witness :
  let s := fst (check_new_tokens default_config (listing [pair_a])
                  initial_state) in
  let s' := fst (check_new_tokens default_config (FetchRaises Timeout) s) in
  printed default_config (FetchRaises Timeout) s = [ErrorFetching Timeout]
  ∧ new_reports default_config (FetchRaises Timeout) s = []
  ∧ snd (check_new_tokens default_config (FetchRaises Timeout) s) = None
  ∧ tracked_pairs s' = tracked_pairs s.
Proof.
  intros s s'.
  exact (fetch_failure_is_contained default_config Timeout s eq_refl).
Defined.

Lemma no_listing_no_pairs data : no_listing data -> no_pairs data = Ok true.
Proof.
  unfold no_pairs. intros [Hdata|(d & -> & Hd)]; [by rewrite Hdata|].
  destruct (truthy (VDict d)); [|done]. simpl.
  destruct Hd as [Hnone|(v & Hv & Hfalsy)].
  - rewrite Hnone. rewrite bool_decide_eq_false_2; [done|].
    by intros [? ?].
  - rewrite Hv. rewrite bool_decide_eq_true_2 by eauto. simpl.
    by rewrite Hfalsy.
Qed.

(** C6.  When the decoded body is empty, has no ['pairs'] key, or has an
    empty listing under it, the poll prints the "No new pairs found." line
    and nothing else, through the normal return of line 59 (neither
    [except] clause runs), and the seen set is as it was. *)
Theorem no_new_pairs cfg data s :
  no_listing data ->
  check_new_tokens cfg (FetchReturns data) s = (fst (print NoNewPairs s), None)
  ∧ printed cfg (FetchReturns data) s = [NoNewPairs]
  ∧ new_reports cfg (FetchReturns data) s = []
  ∧ tracked_pairs (fst (check_new_tokens cfg (FetchReturns data) s))
    = tracked_pairs s.
Proof.
  intros Hdata.
  assert (Hrun : check_new_tokens cfg (FetchReturns data) s
                 = (fst (print NoNewPairs s), None)).
  { unfold check_new_tokens, try_block, bind, lift. simpl.
    by rewrite (no_listing_no_pairs _ Hdata). }
  destruct (new_reports_print cfg (FetchReturns data) s NoNewPairs)
    as [Hp Hn]; [done|by rewrite Hrun|].
  rewrite Hrun. done.
Qed.

(** The fourth scenario of the specification: an empty listing. *)
Lemma no_new_pairs_witness :
  let s := fst (check_new_tokens default_config (listing [pair_a])
                  initial_state) in
  check_new_tokens default_config (listing []) s
  = (fst (print NoNewPairs s), None)
  ∧ printed default_config (listing []) s = [NoNewPairs]
  ∧ new_reports default_config (listing []) s = []
  ∧ tracked_pairs (fst (check_new_tokens default_config (listing []) s))
    = tracked_pairs s.
Proof.
  intros s. apply (no_new_pairs default_config).
  right. eexists. split; [reflexivity|]. right.
  exists (VList []). split; [|reflexivity].
  apply lookup_insert_eq.
Defined.

(** ** A listing, pair by pair *)

Lemma for_each_app {A} (body : A -> M unit) (l1 l2 : list A) (s : state) :
  for_each body (l1 ++ l2) s
  = match for_each body l1 s with
    | (s1, Ok _) => for_each body l2 s1
    | (s1, Raise e) => (s1, Raise e)
    end.
Proof.
  revert s. induction l1 as [|x l1 IH]; intros s; [done|].
  simpl. unfold bind. destruct (body x s) as [s1 [[]|e]]; [apply IH|done].
Qed.

Lemma truthy_dict_lookup (d : gmap string value) key v :
  d !! key = Some v -> truthy (VDict d) = true.
Proof.
  intros Hv. simpl. rewrite bool_decide_eq_false_2; [done|].
  intros Hsize. apply map_size_empty_iff in Hsize. subst d.
  by rewrite lookup_empty in Hv.
Qed.

Lemma no_pairs_listing (d : gmap string value) l :
  d !! "pairs" = Some (VList l) ->
  no_pairs (VDict d) = Ok (bool_decide (l = [])).
Proof.
  intros Hl. unfold no_pairs.
  rewrite (truthy_dict_lookup _ _ _ Hl). simpl.
  rewrite Hl. rewrite bool_decide_eq_true_2 by eauto. simpl. f_equal.
  destruct l; simpl; by repeat case_bool_decide.
Qed.

Lemma try_block_listing cfg (d : gmap string value) l s :
  d !! "pairs" = Some (VList l) ->
  try_block cfg (FetchReturns (VDict d)) s
  = match l with
    | [] => print NoNewPairs s
    | _ :: _ => for_each (loop_body cfg) l s
    end.
Proof.
  intros Hl. unfold try_block, bind, lift. simpl fetched. cbv iota beta.
  rewrite (no_pairs_listing _ _ Hl).
  destruct l as [|p l]; [done|].
  rewrite bool_decide_eq_false_2 by done. simpl. by rewrite Hl.
Qed.

Lemma items_of_listing (d : gmap string value) l :
  d !! "pairs" = Some (VList l) -> items_of (FetchReturns (VDict d)) = l.
Proof.
  intros Hl. unfold items_of. rewrite (no_pairs_listing _ _ Hl).
  destruct l as [|p l]; [done|].
  rewrite bool_decide_eq_false_2 by done. simpl. by rewrite Hl.
Qed.

Lemma check_new_tokens_tracked cfg f s s' res :
  try_block cfg f s = (s', res) ->
  tracked_pairs (fst (check_new_tokens cfg f s)) = tracked_pairs s'.
Proof.
  intros Hrun. unfold check_new_tokens. rewrite Hrun.
  destruct res as [[]|e]; [done|].
  destruct (is_RequestException e); [done|]. by destruct (is_Exception e).
Qed.

Lemma check_new_tokens_reports cfg f s s' res :
  try_block cfg f s = (s', res) ->
  reports (stdout (fst (check_new_tokens cfg f s))) = reports (stdout s').
Proof.
  intros Hrun. unfold check_new_tokens. rewrite Hrun.
  destruct res as [[]|e]; [done|].
  destruct (is_RequestException e); simpl;
    [by rewrite reports_app, app_nil_r|].
  destruct (is_Exception e); simpl; [by rewrite reports_app, app_nil_r|done].
Qed.

Lemma new_reports_eq cfg f s f' :
  reports (stdout (fst (check_new_tokens cfg f s)))
  = reports (stdout (fst (check_new_tokens cfg f' s))) ->
  new_reports cfg f s = new_reports cfg f' s.
Proof.
  rewrite !reports_check_new_tokens. by intros ?%app_inv_head.
Qed.

Lemma getitem_raises v key e : getitem v key = Raise e -> builtin e.
Proof.
  destruct v as [| | | | |d]; simpl; try (by intros [= <-]).
  destruct (d !! key); [done|]. by intros [= <-].
Qed.

Lemma get_raises v key dflt e : get v key dflt = Raise e -> builtin e.
Proof. destruct v; simpl; try done; by intros [= <-]. Qed.

Lemma as_number_raises v e : as_number v = Raise e -> builtin e.
Proof. destruct v as [|[]| | | |]; simpl; try done; by intros [= <-]. Qed.

Lemma to_hashable_raises v e : to_hashable v = Raise e -> builtin e.
Proof. destruct v as [|[]| | | |]; simpl; try done; by intros [= <-]. Qed.

#[local] Hint Resolve getitem_raises get_raises as_number_raises
  to_hashable_raises : raises.

Lemma extract_raises pair e : extract pair = Raise e -> builtin e.
Proof.
  unfold extract, read_base_token, read_liquidity_usd, read_txns_m5.
  intros H. simpl in H. repeat raises_step H. done.
Qed.

Lemma round64_raises q e : Py.round64 q = Raise e -> builtin e.
Proof.
  unfold Py.round64.
  destruct (Qnum q); [done| |];
    destruct (Py.round64_pos _ _) as [m k];
    destruct (Py.overflows m k); try done; by intros [= <-].
Qed.

Lemma truediv_raises a b e : Py.truediv a b = Raise e -> builtin e.
Proof.
  unfold Py.truediv.
  destruct (Py.integral a && Py.integral b).
  - case_bool_decide; [by intros [= <-]|apply round64_raises].
  - destruct (Py.round64 a) as [fa|e'] eqn:Ea; simpl;
      [|intros [= <-]; by eapply round64_raises].
    destruct (Py.round64 b) as [fb|e'] eqn:Eb; simpl;
      [|intros [= <-]; by eapply round64_raises].
    case_bool_decide; [by intros [= <-]|apply round64_raises].
Qed.

Lemma compute_ratio_raises b s e : compute_ratio b s = Raise e -> builtin e.
Proof.
  unfold compute_ratio. intros H. simpl in H. raises_step H.
  case_bool_decide; raises_step H; [by eapply truediv_raises|].
  case_bool_decide; [by eapply truediv_raises|done].
Qed.

Lemma format_low_liquidity_raises cfg l e :
  format_low_liquidity cfg l = Raise e -> builtin e.
Proof.
  unfold format_low_liquidity.
  destruct (_ && _); [by intros [= <-]|done].
Qed.

Lemma report_cut_raises cfg r c e : report_cut cfg r = Some (c, e) -> builtin e.
Proof.
  unfold report_cut.
  repeat (destruct (negb _); [by intros [= <- <-]|]). done.
Qed.

Lemma analyse_raises cfg a pair e : analyse cfg a pair = Raise e -> builtin e.
Proof.
  unfold analyse. intros H.
  destruct (extract pair) as [snap|e'] eqn:Hx; simpl in H;
    [|inversion H; subst; by eapply extract_raises].
  destruct (compute_ratio _ _) as [ratio|e'] eqn:Hr; simpl in H;
    [|inversion H; subst; by eapply compute_ratio_raises].
  repeat raises_step H.
  destruct (format_low_liquidity _ _) as [[]|e'] eqn:Hf; simpl in H;
    [|inversion H; subst; by eapply format_low_liquidity_raises].
  by destruct (classify _ _ _ _ _).
Qed.

Lemma loop_body_raises cfg pair s s' e :
  loop_body cfg pair s = (s', Raise e) -> builtin e.
Proof.
  rewrite loop_body_unfold. intros H.
  destruct (getitem pair "pairAddress") as [a|e'] eqn:Ha;
    [|inversion H; subst; by eapply getitem_raises].
  destruct (to_hashable a) as [k|e'] eqn:Hk;
    [|inversion H; subst; by eapply to_hashable_raises].
  case_bool_decide; [done|]. simpl in H.
  destruct (analyse cfg a pair) as [r|e'] eqn:Hr;
    [|inversion H; subst; by eapply analyse_raises].
  destruct (report_cut cfg r) as [[c e']|] eqn:Hc; [|done].
  inversion H; subst. by eapply report_cut_raises.
Qed.

Lemma for_each_raises cfg l :
  ∀ s s' e, for_each (loop_body cfg) l s = (s', Raise e) -> builtin e.
Proof.
  induction l as [|p l IH]; intros s s' e H; [done|].
  simpl in H. unfold bind in H.
  destruct (loop_body cfg p s) as [s1 [[]|e1]] eqn:Hp.
  - by eapply IH.
  - inversion H; subst. by eapply loop_body_raises.
Qed.

Lemma check_new_tokens_builtin cfg f s s' e :
  try_block cfg f s = (s', Raise e) -> builtin e ->
  check_new_tokens cfg f s = (fst (print (UnexpectedError e) s'), None).
Proof.
  intros Hrun [Hreq Hexc]. unfold check_new_tokens.
  by rewrite Hrun, Hreq, Hexc.
Qed.

Lemma try_block_nonempty cfg (d : gmap string value) l s :
  d !! "pairs" = Some (VList l) -> l ≠ [] ->
  try_block cfg (FetchReturns (VDict d)) s = for_each (loop_body cfg) l s.
Proof.
  intros Hl Hne. rewrite (try_block_listing _ _ _ _ Hl). by destruct l.
Qed.

(** The loop stops at a pair whose body raises. *)
Lemma for_each_stops {A} (body : A -> M unit) l1 x l2 e s :
  (∀ t, body x t = (t, Raise e)) ->
  for_each body (l1 ++ x :: l2) s
  = match for_each body l1 s with
    | (s1, Ok _) => (s1, Raise e)
    | (s1, Raise e1) => (s1, Raise e1)
    end.
Proof.
  intros Hx. rewrite for_each_app.
  destruct (for_each body l1 s) as [s1 [[]|e1]]; [|done].
  simpl. unfold bind. by rewrite Hx.
Qed.

(** ** A pair object without identifier *)

(** C5, as stated, fails.  A pair object without ['pairAddress'] followed
    by a well-formed pair: the lookup raises KeyError, the poll prints the
    unexpected-error line only, and the well-formed pair is neither tracked
    nor reported, though it is reported when listed alone.  And a pair
    object whose base token lacks its symbol is added to the seen set
    before the lookup of line 72 raises. *)
Lemma pair_without_address_ends_the_cycle :
  let f := listing [pair_without_address; pair_a] in
  getitem pair_without_address "pairAddress" = Raise KeyError
  ∧ printed default_config f initial_state = [UnexpectedError KeyError]
  ∧ (HStr "0xa" ∉ tracked_pairs (fst (check_new_tokens default_config f
                                        initial_state)))
  ∧ ¬ (new_reports default_config f initial_state
       = new_reports default_config (listing [pair_a]) initial_state)
  ∧ HStr "0xc" ∈ tracked_pairs (fst (check_new_tokens default_config
                                       (listing [pair_without_symbol])
                                       initial_state)).
Proof.
  intros f. split_and!.
  - reflexivity.
  - vm_compute. reflexivity.
  - apply (bool_decide_unpack _). vm_compute. exact I.
  - vm_compute. discriminate.
  - apply (bool_decide_unpack _). vm_compute. exact I.
Qed.

(** C5, amended.  A pair object whose identifier cannot be read adds
    nothing to the seen set and ends the cycle there: the pairs listed
    before it are tracked and reported as if the listing stopped before it,
    the pairs listed after it are neither tracked nor reported, and no
    exception leaves the poll. *)
Theorem unreadable_identifier_ends_the_cycle cfg
    (d d1 : gmap string value) l1 bad l2 e s :
  d !! "pairs" = Some (VList (l1 ++ bad :: l2)) ->
  d1 !! "pairs" = Some (VList l1) ->
  getitem bad "pairAddress" = Raise e ->
  let f := FetchReturns (VDict d) in
  let f1 := FetchReturns (VDict d1) in
  snd (check_new_tokens cfg f s) = None
  ∧ tracked_pairs (fst (check_new_tokens cfg f s))
    = tracked_pairs (fst (check_new_tokens cfg f1 s))
  ∧ new_reports cfg f s = new_reports cfg f1 s.
Proof.
  intros Hd Hd1 Hbad f f1. subst f f1.
  assert (Hbody : ∀ t, loop_body cfg bad t = (t, Raise e))
    by (intros t; rewrite loop_body_unfold; by rewrite Hbad).
  pose proof (getitem_raises _ _ _ Hbad) as He.
  assert (Hrun : try_block cfg (FetchReturns (VDict d)) s
                 = match for_each (loop_body cfg) l1 s with
                   | (s1, Ok _) => (s1, Raise e)
                   | (s1, Raise e1) => (s1, Raise e1)
                   end).
  { rewrite (try_block_nonempty _ _ _ _ Hd) by (by destruct l1).
    by apply for_each_stops. }
  pose proof (try_block_listing cfg d1 _ s Hd1) as Hrun1.
  destruct l1 as [|p1 l1].
  - (* the pair is the first of the listing *)
    simpl in Hrun. split_and!.
    + by rewrite (check_new_tokens_builtin _ _ _ _ _ Hrun He).
    + by rewrite (check_new_tokens_tracked _ _ _ _ _ Hrun),
                 (check_new_tokens_tracked _ _ _ _ _ Hrun1).
    + apply new_reports_eq.
      rewrite (check_new_tokens_reports _ _ _ _ _ Hrun),
              (check_new_tokens_reports _ _ _ _ _ Hrun1).
      simpl. by rewrite reports_app, app_nil_r.
  - destruct (for_each (loop_body cfg) (p1 :: l1) s) as [s1 [[]|e1]] eqn:Hl1.
    + split_and!.
      * by rewrite (check_new_tokens_builtin _ _ _ _ _ Hrun He).
      * by rewrite (check_new_tokens_tracked _ _ _ _ _ Hrun),
                   (check_new_tokens_tracked _ _ _ _ _ Hrun1).
      * apply new_reports_eq.
        by rewrite (check_new_tokens_reports _ _ _ _ _ Hrun),
                   (check_new_tokens_reports _ _ _ _ _ Hrun1).
    + assert (Hsame : check_new_tokens cfg (FetchReturns (VDict d)) s
                      = check_new_tokens cfg (FetchReturns (VDict d1)) s)
        by (unfold check_new_tokens; by rewrite Hrun, Hrun1).
      split_and!.
      * pose proof (for_each_raises _ _ _ _ _ Hl1) as He1.
        by rewrite (check_new_tokens_builtin _ _ _ _ _ Hrun He1).
      * by rewrite Hsame.
      * unfold new_reports, printed. by rewrite Hsame.
Qed.

(** Between 0xa and a bare pair, an object without identifier: the poll
    reports 0xa only, as it does for the listing of 0xa alone. *)
Lemma unreadable_identifier_ends_the_cycle_witness :
  let f := listing [pair_a; pair_without_address; pair_bare] in
  let f1 := listing [pair_a] in
  snd (check_new_tokens default_config f initial_state) = None
  ∧ tracked_pairs (fst (check_new_tokens default_config f initial_state))
    = tracked_pairs (fst (check_new_tokens default_config f1 initial_state))
  ∧ new_reports default_config f initial_state
    = new_reports default_config f1 initial_state.
Proof.
  intros f f1.
  apply (unreadable_identifier_ends_the_cycle default_config
           (<["pairs" := VList [pair_a; pair_without_address; pair_bare]]> ∅)
           (<["pairs" := VList [pair_a]]> ∅)
           [pair_a] pair_without_address [pair_bare] KeyError initial_state);
    reflexivity.
Defined.

(** ** A pair that raises after it was tracked *)

Lemma tracker_inv_untracked s k :
  tracker_inv s -> k ∉ tracked_pairs s -> reports_for k (stdout s) = [].
Proof.
  intros [_ Hin] Hk. apply filter_none. intros r Hr Hkey.
  destruct (Hin r Hr) as (k' & Hkey' & Hk').
  rewrite Hkey in Hkey'. inversion Hkey'; subst. done.
Qed.

Lemma tracker_inv_initial : tracker_inv initial_state.
Proof. split; [constructor|]. intros r Hr. inversion Hr. Qed.

(** C9.  A pair object whose identifier is read and is new, but whose
    analysis raises (lines 72-99: a missing base-token field, a figure that
    is not a number), has been added to the seen set before the exception:
    after that poll the identifier is tracked without any report for it,
    and through any further polls it stays tracked and no report for it is
    ever printed. *)
Theorem tracked_but_never_reported cfg (d : gmap string value)
    l1 pair l2 a k e s s1 fs :
  tracker_inv s ->
  d !! "pairs" = Some (VList (l1 ++ pair :: l2)) ->
  for_each (loop_body cfg) l1 s = (s1, Ok tt) ->
  getitem pair "pairAddress" = Ok a ->
  to_hashable a = Ok k ->
  k ∉ tracked_pairs s1 ->
  analyse cfg a pair = Raise e ->
  let s' := fst (check_new_tokens cfg (FetchReturns (VDict d)) s) in
  let s'' := fst (poll_loop cfg fs s') in
  k ∈ tracked_pairs s'
  ∧ reports_for k (stdout s') = []
  ∧ k ∈ tracked_pairs s''
  ∧ reports_for k (stdout s'') = [].
Proof.
  intros Hinv Hd Hl1 Ha Hk Hnew Han s' s''. subst s' s''.
  set (f := FetchReturns (VDict d)).
  assert (Hbody : loop_body cfg pair s1
                  = ({| tracked_pairs := {[k]} ∪ tracked_pairs s1;
                        stdout := stdout s1 |}, Raise e)).
  { rewrite loop_body_unfold, Ha, Hk.
    rewrite bool_decide_eq_false_2 by done. simpl. by rewrite Han. }
  assert (Hrun : try_block cfg f s
                 = ({| tracked_pairs := {[k]} ∪ tracked_pairs s1;
                       stdout := stdout s1 |}, Raise e)).
  { unfold f. rewrite (try_block_nonempty _ _ _ _ Hd) by (by destruct l1).
    rewrite for_each_app, Hl1. simpl. unfold bind. by rewrite Hbody. }
  assert (Htracked : k ∈ tracked_pairs (fst (check_new_tokens cfg f s))).
  { rewrite (check_new_tokens_tracked _ _ _ _ _ Hrun). simpl. set_solver. }
  assert (Hs : k ∉ tracked_pairs s).
  { destruct (for_each_loop_body_ok _ _ _ _ Hl1) as (rs & _ & Hsub & _).
    intros Hin. by apply Hnew, Hsub. }
  assert (Hnone : reports_for k (stdout (fst (check_new_tokens cfg f s))) = []).
  { rewrite printed_spec, reports_for_app.
    rewrite (tracker_inv_untracked _ _ Hinv Hs). simpl.
    unfold reports_for. fold (new_reports cfg f s).
    assert (Hrs : reports (stdout s1)
                  = (reports (stdout s) ++ new_reports cfg f s)%list).
    { rewrite <- reports_check_new_tokens.
      by rewrite (check_new_tokens_reports _ _ _ _ _ Hrun). }
    destruct (for_each_loop_body_ok _ _ _ _ Hl1) as (rs & Hout & _ & _ & Hkeys).
    rewrite Hout, reports_app, reports_NewToken in Hrs.
    apply app_inv_head in Hrs. rewrite <- Hrs.
    apply filter_none. intros r Hr Hkey.
    destruct (Hkeys r Hr) as (k' & _ & Hkey' & _ & Hin & _).
    rewrite Hkey in Hkey'. inversion Hkey'; subst. done. }
  destruct (poll_loop_tracked cfg fs _ k Htracked) as [Hlater Hsame].
  split_and!; [done|done|done|]. by rewrite Hsame.
Qed.

(** The pair without symbol is listed, then listed again complete: its
    identifier is tracked after the first poll and the second poll prints
    no report for it. *)
Lemma tracked_but_never_reported_witness :
  let s' := fst (check_new_tokens default_config
                   (listing [pair_without_symbol]) initial_state) in
  let s'' := fst (poll_loop default_config
                    [listing [mk_pair "0xc" (Q2Qc 10000) (Q2Qc 20) (Q2Qc 15)]]
                    s') in
  HStr "0xc" ∈ tracked_pairs s'
  ∧ reports_for (HStr "0xc") (stdout s') = []
  ∧ HStr "0xc" ∈ tracked_pairs s''
  ∧ reports_for (HStr "0xc") (stdout s'') = [].
Proof.
  intros s' s''.
  apply (tracked_but_never_reported default_config
           (<["pairs" := VList [pair_without_symbol]]> ∅)
           [] pair_without_symbol [] (VStr "0xc") (HStr "0xc") KeyError
           initial_state initial_state).
  - exact tracker_inv_initial.
  - reflexivity.
  - reflexivity.
  - reflexivity.
  - reflexivity.
  - apply (bool_decide_unpack _). vm_compute. exact I.
  - reflexivity.
Defined.

(** ** An identifier listed more than once *)

(** C10.  In the reports one poll prints, no identifier occurs twice, and
    the report for an identifier is the analysis of the first pair object
    listed under it: a later pair object with the same identifier is
    skipped at line 66, the identifier having been added at line 69. *)
Theorem first_occurrence_only cfg (d : gmap string value) l s r :
  d !! "pairs" = Some (VList l) ->
  r ∈ new_reports cfg (FetchReturns (VDict d)) s ->
  NoDup (report_key <$> new_reports cfg (FetchReturns (VDict d)) s)
  ∧ ∃ k p, report_key r = Some k
           ∧ first_with_key k l = Some p
           ∧ analyse cfg (pair_address r) p = Ok r.
Proof.
  intros Hd Hr.
  destruct (new_reports_post cfg (FetchReturns (VDict d)) s)
    as (_ & Hnd & Hrs).
  split; [done|].
  destruct (Hrs r Hr) as (k & p & Hkey & _ & _ & Hfirst & Han).
  rewrite (items_of_listing _ _ Hd) in Hfirst. by exists k, p.
Qed.

(** 0xa listed twice in one answer: one report, with the figures listed
    first. *)
Lemma first_occurrence_only_witness :
  let d : gmap string value := <["pairs" := VList [pair_a; pair_a_changed]]> ∅ in
  let f := FetchReturns (VDict d) in
  ∃ r, new_reports default_config f initial_state = [r]
       ∧ bool_decide (liquidity_usd r = Q2Qc 10000) = true
       ∧ NoDup (report_key <$> new_reports default_config f initial_state)
       ∧ ∃ k p, report_key r = Some k
                ∧ first_with_key k [pair_a; pair_a_changed] = Some p
                ∧ analyse default_config (pair_address r) p = Ok r.
Proof.
  intros d f.
  assert (Hnew : ∃ r, new_reports default_config f initial_state = [r]
                      ∧ bool_decide (liquidity_usd r = Q2Qc 10000) = true).
  { eexists. split; vm_compute; reflexivity. }
  destruct Hnew as (r & Hnew & Hliq). exists r.
  split; [exact Hnew|]. split; [exact Hliq|].
  apply (first_occurrence_only default_config d [pair_a; pair_a_changed]
           initial_state r).
  - reflexivity.
  - fold f. rewrite Hnew. apply list_elem_of_here.
Defined.

(** ** Absent fields (lines 72-77) *)

(** C7, as stated, fails.  The base token of this pair object has a name
    and no symbol: line 72 raises KeyError, no snapshot is built, and the
    poll prints the unexpected-error line instead of a report. *)
Lemma absent_symbol_has_no_default :
  extract pair_without_symbol = Raise KeyError
  ∧ ¬ (∃ snap, extract pair_without_symbol = Ok snap)
  ∧ printed default_config (listing [pair_without_symbol]) initial_state
    = [UnexpectedError KeyError].
Proof.
  split_and!.
  - reflexivity.
  - intros [snap Hsnap]. vm_compute in Hsnap. discriminate.
  - vm_compute. reflexivity.
Qed.

(** C7, amended.  An absent liquidity object or an absent [usd] in it
    gives liquidity 0; an absent transaction object or an absent [m5]
    window in it gives 0 buys and 0 sells; an absent [buys] or [sells] in
    the window gives 0 for that count.  The base token has no default:
    without it, or without its symbol or its name, the extraction raises
    KeyError. *)
Theorem absent_fields (d : gmap string value) :
  (d !! "liquidity" = None -> read_liquidity_usd (VDict d) = Ok (VNum 0))
  ∧ (∀ l, d !! "liquidity" = Some (VDict l) -> l !! "usd" = None ->
          read_liquidity_usd (VDict d) = Ok (VNum 0))
  ∧ (d !! "txns" = None -> read_txns_m5 (VDict d) = Ok (VNum 0, VNum 0))
  ∧ (∀ t, d !! "txns" = Some (VDict t) -> t !! "m5" = None ->
          read_txns_m5 (VDict d) = Ok (VNum 0, VNum 0))
  ∧ (∀ t m, d !! "txns" = Some (VDict t) -> t !! "m5" = Some (VDict m) ->
            read_txns_m5 (VDict d)
            = Ok (default (VNum 0) (m !! "buys"),
                  default (VNum 0) (m !! "sells")))
  ∧ (d !! "baseToken" = None -> extract (VDict d) = Raise KeyError)
  ∧ (∀ b, d !! "baseToken" = Some (VDict b) ->
          b !! "symbol" = None ∨ b !! "name" = None ->
          extract (VDict d) = Raise KeyError).
Proof.
  unfold extract, read_base_token, read_liquidity_usd, read_txns_m5.
  split_and!.
  - intros H. simpl. by rewrite H.
  - intros l H Hl. simpl. rewrite H. simpl. by rewrite Hl.
  - intros H. simpl. by rewrite H.
  - intros t H Ht. simpl. rewrite H. simpl. by rewrite Ht.
  - intros t m H Ht. simpl. rewrite H. simpl. by rewrite Ht.
  - intros H. simpl. by rewrite H.
  - intros b H [Hb|Hb]; simpl; rewrite H; simpl.
    + by rewrite Hb.
    + destruct (b !! "symbol"); simpl; [|done]. by rewrite Hb.
Qed.

(** A pair object with nothing but its identifier and base token is
    reported with liquidity 0 and no transaction. *)
Lemma absent_fields_witness :
  read_liquidity_usd pair_bare = Ok (VNum 0)
  ∧ read_txns_m5 pair_bare = Ok (VNum 0, VNum 0)
  ∧ extract pair_without_address = Raise KeyError.
Proof.
  split_and!.
  - apply absent_fields. reflexivity.
  - apply absent_fields. reflexivity.
  - apply absent_fields. reflexivity.
Defined.

(** ** The classification reads and writes nothing else *)

Lemma loop_body_tracked cfg pair s :
  tracked_pairs (fst (loop_body cfg pair s))
  = match pair_key pair with
    | Ok k => {[k]} ∪ tracked_pairs s
    | Raise _ => tracked_pairs s
    end.
Proof.
  rewrite loop_body_unfold. unfold pair_key.
  destruct (getitem pair "pairAddress") as [a|e]; [|done]. simpl.
  destruct (to_hashable a) as [k|e]; [|done].
  case_bool_decide as Hseen; simpl; [set_solver|].
  destruct (analyse cfg a pair) as [r|]; [|done].
  by destruct (report_cut cfg r) as [[]|].
Qed.

(** C8.  The verdict is a function of the figures and the thresholds: two
    reports printed under the same thresholds, by any two polls from any
    two states of the tracker, that show the same liquidity and the same
    buy and sell counts show the same ratio, the same flag and the same
    reasons.  And the classification leaves the seen set alone: what one
    iteration of the loop does to the seen set is to add the identifier of
    its pair, whatever the figures, the thresholds and the verdict are. *)
Theorem classification_is_pure cfg f1 s1 r1 f2 s2 r2 :
  r1 ∈ new_reports cfg f1 s1 ->
  r2 ∈ new_reports cfg f2 s2 ->
  liquidity_usd r1 = liquidity_usd r2 ->
  buys_m5 r1 = buys_m5 r2 ->
  sells_m5 r1 = sells_m5 r2 ->
  (buy_sell_ratio r1 = buy_sell_ratio r2
   ∧ is_trustworthy r1 = is_trustworthy r2
   ∧ reasons r1 = reasons r2)
  ∧ ∀ cfg' pair s,
      tracked_pairs (fst (loop_body cfg' pair s))
      = match pair_key pair with
        | Ok k => {[k]} ∪ tracked_pairs s
        | Raise _ => tracked_pairs s
        end.
Proof.
  intros Hr1 Hr2 Hl Hb Hs. split; [|apply loop_body_tracked].
  assert (Hratio : buy_sell_ratio r1 = buy_sell_ratio r2).
  { pose proof (report_ratio _ _ _ _ Hr1) as H1.
    pose proof (report_ratio _ _ _ _ Hr2) as H2.
    rewrite Hb, Hs, H2 in H1. by inversion H1. }
  destruct (new_reports_analysed _ _ _ _ Hr1) as (p1 & _ & Han1).
  destruct (new_reports_analysed _ _ _ _ Hr2) as (p2 & _ & Han2).
  destruct (analyse_inv _ _ _ _ Han1) as (_ & _ & _ & _ & _ & _ & Hc1).
  destruct (analyse_inv _ _ _ _ Han2) as (_ & _ & _ & _ & _ & _ & Hc2).
  rewrite Hl, Hb, Hs, Hratio, Hc2 in Hc1. by inversion Hc1.
Qed.

(** Two polls, on different states, of two pairs with the same figures
    under different identifiers. *)
Lemma classification_is_pure_witness :
  let p1 := mk_pair "0xe" (Q2Qc 1000) (Q2Qc 5) (Q2Qc 2) in
  let p2 := mk_pair "0xf" (Q2Qc 1000) (Q2Qc 5) (Q2Qc 2) in
  let s2 := fst (check_new_tokens default_config (listing [pair_a])
                   initial_state) in
  ∃ r1 r2,
    new_reports default_config (listing [p1]) initial_state = [r1]
    ∧ new_reports default_config (listing [p2]) s2 = [r2]
    ∧ buy_sell_ratio r1 = buy_sell_ratio r2
    ∧ is_trustworthy r1 = is_trustworthy r2
    ∧ reasons r1 = reasons r2.
Proof.
  intros p1 p2 s2.
  assert (H1 : ∃ r1, new_reports default_config (listing [p1]) initial_state
                     = [r1]) by (eexists; vm_compute; reflexivity).
  assert (H2 : ∃ r2, new_reports default_config (listing [p2]) s2 = [r2])
    by (eexists; vm_compute; reflexivity).
  destruct H1 as [r1 H1]. destruct H2 as [r2 H2]. exists r1, r2.
  split; [exact H1|]. split; [exact H2|].
  refine (proj1 (classification_is_pure default_config
                   (listing [p1]) initial_state r1 (listing [p2]) s2 r2
                   _ _ _ _ _)).
  - rewrite H1. apply list_elem_of_here.
  - rewrite H2. apply list_elem_of_here.
  - vm_compute in H1, H2. inversion H1. inversion H2. reflexivity.
  - vm_compute in H1, H2. inversion H1. inversion H2. reflexivity.
  - vm_compute in H1, H2. inversion H1. inversion H2. reflexivity.
Defined.

(** ** The scenarios of the specification, default thresholds *)

(** Liquidity 10000, 20 buys, 15 sells: trustworthy, the ratio is the
    float nearest to 4/3. *)
Example scenario_balanced :
  ∃ r, new_reports default_config (listing [pair_a]) initial_state = [r]
       ∧ is_trustworthy r = true
       ∧ reasons r = []
       ∧ bool_decide (buy_sell_ratio r
                      = Q2Qc (6004799503160661 # 4503599627370496)) = true.
Proof. eexists. split_and!; vm_compute; reflexivity. Qed.

(** Liquidity 10000, 100 buys, 1 sell: the ratio 100 is above 10. *)
Example scenario_unbalanced :
  ∃ r, new_reports default_config
         (listing [mk_pair "0xc" (Q2Qc 10000) (Q2Qc 100) (Q2Qc 1)])
         initial_state = [r]
       ∧ is_trustworthy r = false
       ∧ bool_decide (reasons r = [UnbalancedRatio (Q2Qc 100)]) = true.
Proof. eexists. split_and!; vm_compute; reflexivity. Qed.

(** A run: a listing with a repeated identifier, a time out, a body that
    is a number, an empty body, then an interrupt. *)
Example a_run :
  stdout (fst (main default_config
                 [listing [pair_without_address; pair_a];
                  FetchRaises Timeout;
                  FetchReturns (VNum 1);
                  FetchReturns VNone;
                  FetchRaises KeyboardInterrupt;
                  listing [pair_a]]))
  = [Started; UnexpectedError KeyError; ErrorFetching Timeout;
     UnexpectedError TypeError; NoNewPairs; Stopped].
Proof. vm_compute. reflexivity. Qed.

(** ** Which exceptions leave a poll *)

Lemma contains_raises key v e : contains key v = Raise e -> builtin e.
Proof. destruct v; simpl; try done; by intros [= <-]. Qed.

Lemma iter_raises v e : iter v = Raise e -> builtin e.
Proof. destruct v; simpl; try done; by intros [= <-]. Qed.

Lemma no_pairs_raises data e : no_pairs data = Raise e -> builtin e.
Proof.
  unfold no_pairs. destruct (truthy data); simpl; [|done].
  destruct (contains "pairs" data) as [[|]|e'] eqn:Hc; simpl.
  - destruct (getitem data "pairs") eqn:Hg; simpl; [done|].
    intros [= <-]. by eapply getitem_raises.
  - done.
  - intros [= <-]. by eapply contains_raises.
Qed.

Lemma try_block_raises cfg data s s' e :
  try_block cfg (FetchReturns data) s = (s', Raise e) -> builtin e.
Proof.
  unfold try_block, bind, lift. simpl. intros H.
  destruct (no_pairs data) as [[|]|e'] eqn:Hn.
  - done.
  - destruct (getitem data "pairs") as [pairs|e'] eqn:Hg;
      [|inversion H; subst; by eapply getitem_raises].
    destruct (iter pairs) as [items|e'] eqn:Hi;
      [|inversion H; subst; by eapply iter_raises].
    by eapply for_each_raises.
  - inversion H; subst. by eapply no_pairs_raises.
Qed.

Lemma check_new_tokens_escape cfg f s :
  check_new_tokens cfg f s
  = match f with
    | FetchRaises e =>
        if is_Exception e then (fst (check_new_tokens cfg f s), None)
        else (s, Some e)
    | FetchReturns _ => (fst (check_new_tokens cfg f s), None)
    end.
Proof.
  unfold check_new_tokens.
  destruct (try_block cfg f s) as [s' [[]|e]] eqn:Hrun.
  - destruct f as [e|data]; [|done].
    unfold try_block, bind, lift in Hrun. simpl in Hrun. done.
  - destruct f as [e0|data].
    + unfold try_block, bind, lift in Hrun. simpl in Hrun.
      inversion Hrun; subst. by destruct e.
    + destruct (try_block_raises _ _ _ _ _ Hrun) as [-> ->]. done.
Qed.

(** X2.  Of the exceptions that the statements of [check_new_tokens]
    raise, one leaves the call only when the fetch (lines 53-55) raised it
    and it does not derive from [Exception], as the interrupt of the user
    while the call waits for the provider does; the call then has printed
    nothing and tracked nothing.  Whatever body the provider returns, of
    whatever shape, the statements that process it raise no exception that
    leaves the call.  (An interrupt that arrives while the body is
    processed is the matter of the last section.) *)
Theorem escapes_only_from_fetch cfg f s :
  snd (check_new_tokens cfg f s)
  = match f with
    | FetchRaises e => if is_Exception e then None else Some e
    | FetchReturns _ => None
    end
  ∧ ∀ e, snd (check_new_tokens cfg f s) = Some e ->
         fst (check_new_tokens cfg f s) = s.
Proof.
  rewrite (check_new_tokens_escape cfg f s).
  destruct f as [e|data]; [|done]. destruct (is_Exception e); [done|].
  split; [done|]. by intros e' _.
Qed.

(** ** [main] and the interrupt *)

Lemma poll_loop_contained cfg fs :
  ∀ s, Forall (fun f => contained f = true) fs ->
       snd (poll_loop cfg fs s) = None.
Proof.
  induction fs as [|f fs IH]; intros s Hfs; [done|].
  apply list.Forall_cons in Hfs as [Hf Hfs]. simpl.
  rewrite (check_new_tokens_escape cfg f s).
  destruct f as [e|data]; simpl in Hf; [rewrite Hf|]; by apply IH.
Qed.

Lemma poll_loop_app cfg fs1 fs2 :
  ∀ s, Forall (fun f => contained f = true) fs1 ->
       poll_loop cfg (fs1 ++ fs2) s
       = poll_loop cfg fs2 (fst (poll_loop cfg fs1 s)).
Proof.
  induction fs1 as [|f fs1 IH]; intros s Hfs; [done|].
  apply list.Forall_cons in Hfs as [Hf Hfs]. simpl.
  rewrite (check_new_tokens_escape cfg f s).
  destruct f as [e|data]; simpl in Hf; [rewrite Hf|]; by apply IH.
Qed.

Lemma main_contained cfg f0 fs1 :
  contained f0 = true -> Forall (fun f => contained f = true) fs1 ->
  main cfg (f0 :: fs1)
  = (fst (poll_loop cfg fs1
            (fst (check_new_tokens cfg f0 (fst (print Started initial_state))))),
     None).
Proof.
  intros Hf0 Hfs1. unfold main.
  rewrite (check_new_tokens_escape cfg f0 _).
  pose proof (poll_loop_contained cfg fs1
                (fst (check_new_tokens cfg f0
                        (fst (print Started initial_state)))) Hfs1) as Hnone.
  destruct f0 as [e|data]; simpl in Hf0; [rewrite Hf0|];
    destruct (poll_loop cfg fs1 _) as [s2 o]; simpl in Hnone; by subst o.
Qed.

(** X1.  An interrupt of the user that arrives while a poll of the loop of
    [main] waits for the provider (lines 53-55) stops the program in good
    order: the polls made before it count in full, the line
    "Token tracker stopped." is printed last, [main] returns without an
    exception, and no later poll is made.  An interrupt that arrives while
    the first check waits for the provider, a check that [main] makes
    outside its [try], leaves [main] as an exception, after the banner
    alone.  (An interrupt that arrives at another statement is the matter
    of the last section.) *)
Theorem interrupt_stops_main cfg f0 fs1 fs2 :
  contained f0 = true ->
  Forall (fun f => contained f = true) fs1 ->
  let run := main cfg (f0 :: fs1 ++ FetchRaises KeyboardInterrupt :: fs2) in
  let before := main cfg (f0 :: fs1) in
  snd run = None
  ∧ tracked_pairs (fst run) = tracked_pairs (fst before)
  ∧ stdout (fst run) = (stdout (fst before) ++ [Stopped])%list
  ∧ main cfg (FetchRaises KeyboardInterrupt :: fs2)
    = (fst (print Started initial_state), Some KeyboardInterrupt).
Proof.
  intros Hf0 Hfs1 run before. subst run before.
  rewrite (main_contained cfg f0 fs1 Hf0 Hfs1).
  split_and!; [| | |done].
  all: unfold main; rewrite (check_new_tokens_escape cfg f0 _).
  all: destruct f0 as [e|data]; simpl in Hf0; [rewrite Hf0|].
  all: rewrite (poll_loop_app cfg fs1 _ _ Hfs1); simpl.
  all: done.
Qed.

(** A listing, a time out, the interrupt, and a listing never polled. *)
Lemma interrupt_stops_main_witness :
  let run := main default_config
               ([listing [pair_a]; FetchRaises Timeout]
                ++ FetchRaises KeyboardInterrupt :: [listing [pair_bare]]) in
  let before := main default_config [listing [pair_a]; FetchRaises Timeout] in
  snd run = None
  ∧ tracked_pairs (fst run) = tracked_pairs (fst before)
  ∧ stdout (fst run) = (stdout (fst before) ++ [Stopped])%list
  ∧ main default_config
      (FetchRaises KeyboardInterrupt :: [listing [pair_bare]])
    = (fst (print Started initial_state), Some KeyboardInterrupt).
Proof.
  intros run before.
  apply (interrupt_stops_main default_config (listing [pair_a])
           [FetchRaises Timeout] [listing [pair_bare]]).
  - reflexivity.
  - constructor; [reflexivity|constructor].
Defined.

(** ** A listing that is not a list *)

(** X3.  When ['pairs'] holds something else than a list (an object keyed
    by address, a string, a number, [true]), the poll tracks and reports
    nothing: iterating it, or subscripting what the iteration yields,
    raises TypeError, and the unexpected-error line is all that is
    printed. *)
Theorem listing_must_be_a_list cfg (d : gmap string value) v s :
  d !! "pairs" = Some v ->
  truthy v = true ->
  (∀ l, v ≠ VList l) ->
  check_new_tokens cfg (FetchReturns (VDict d)) s
  = (fst (print (UnexpectedError TypeError) s), None).
Proof.
  intros Hd Hv Hlist.
  assert (Hn : no_pairs (VDict d) = Ok false).
  { unfold no_pairs. rewrite (truthy_dict_lookup _ _ _ Hd). simpl.
    rewrite Hd. rewrite bool_decide_eq_true_2 by eauto. simpl.
    by rewrite Hv. }
  assert (Hrun : try_block cfg (FetchReturns (VDict d)) s
                 = (s, Raise TypeError)).
  { unfold try_block, bind, lift. simpl fetched. cbv iota beta.
    rewrite Hn. cbv iota beta. simpl getitem. rewrite Hd.
    destruct v as [|b|q|str|l|d']; simpl in Hv.
    - done.
    - done.
    - done.
    - destruct str as [|a str]; [done|]. simpl. unfold bind.
      by rewrite loop_body_unfold.
    - by destruct (Hlist l).
    - simpl iter. cbv iota beta.
      destruct (map_to_list d') as [|[k x] rest] eqn:Hlist'.
      + apply map_to_list_empty_iff in Hlist'. subst d'.
        by rewrite map_size_empty in Hv.
      + simpl. unfold bind. by rewrite loop_body_unfold. }
  unfold check_new_tokens. by rewrite Hrun.
Qed.

(** The provider answers with an object keyed by address instead of a
    list. *)
Lemma listing_must_be_a_list_witness :
  let d : gmap string value :=
    <["pairs" := VDict (<["0xa" := pair_a]> ∅)]> ∅ in
  check_new_tokens default_config (FetchReturns (VDict d)) initial_state
  = (fst (print (UnexpectedError TypeError) initial_state), None).
Proof.
  intros d.
  apply (listing_must_be_a_list default_config d
           (VDict (<["0xa" := pair_a]> ∅)) initial_state).
  - reflexivity.
  - reflexivity.
  - intros l Hl. discriminate Hl.
Defined.

(** ** Which pair objects are analysed *)

Lemma well_shaped_extract pair :
  well_shaped pair
  = match extract pair with
    | Ok snap =>
        number_like (snap_liquidity_usd snap)
        && (number_like (snap_buys_m5 snap)
            && number_like (snap_sells_m5 snap))
    | Raise _ => false
    end.
Proof.
  unfold well_shaped, extract, read_base_token, read_liquidity_usd,
    read_txns_m5, is_dict_with, absent_or, no_txns.
  destruct pair as [| | | | |d]; try reflexivity. simpl.
  destruct (d !! "baseToken") as [[| | | | |b]|]; simpl; try reflexivity.
  destruct (b !! "symbol") as [sym|]; simpl; [|reflexivity].
  destruct (b !! "name") as [name|]; simpl; [|reflexivity].
  destruct (d !! "liquidity") as [[| | | | |l]|]; simpl; try reflexivity.
  all: destruct (d !! "txns") as [[| | | | |t]|]; simpl;
    rewrite ?andb_false_r; try reflexivity.
  all: try (destruct (t !! "m5") as [[| | | | |m]|]; simpl;
            rewrite ?andb_false_r; try reflexivity).
  all: repeat (first [ rewrite lookup_empty
                     | rewrite lookup_insert_eq
                     | rewrite (lookup_insert_ne _ "buys" "sells") by done ];
               simpl).
  all: repeat match goal with
         | |- context [?x !! ?k] => destruct (x !! k); simpl
         end; rewrite ?andb_true_r; reflexivity.
Qed.

Lemma as_number_number_like v q : as_number v = Ok q -> number_like v = true.
Proof. by destruct v. Qed.

Lemma analyse_well_shaped cfg a pair r :
  analyse cfg a pair = Ok r -> well_shaped pair = true.
Proof.
  intros Han. rewrite well_shaped_extract.
  destruct (analyse_inv _ _ _ _ Han) as (snap & -> & Hl & Hb & Hs & _).
  by rewrite (as_number_number_like _ _ Hl), (as_number_number_like _ _ Hb),
    (as_number_number_like _ _ Hs).
Qed.

Lemma formats_as_float_moderate q :
  moderate q = true -> formats_as_float q = true.
Proof.
  intros Hq%round64_moderate. unfold formats_as_float.
  destruct (integral q); [|done]. by destruct (round64 q).
Qed.

(** What lines 72-99 yield for a pair object of the right shape with
    moderate figures. *)
Lemma analyse_moderate cfg a pair :
  well_shaped pair = true -> moderate_figures cfg pair = true ->
  ∃ snap r,
    extract pair = Ok snap
    ∧ analyse cfg a pair = Ok r
    ∧ base_token_name r = snap_name snap
    ∧ base_token_symbol r = snap_symbol snap
    ∧ pair_address r = a
    ∧ moderate (liquidity_usd r) = true.
Proof.
  unfold moderate_figures, analyse. intros _ Hm.
  apply andb_prop in Hm as [Hmin Hm].
  destruct (extract pair) as [snap|]; [|done]. simpl.
  apply andb_prop in Hm as [Hm Hs]. apply andb_prop in Hm as [Hl Hb].
  destruct (as_number (snap_liquidity_usd snap)) as [l|] eqn:El; [|done].
  pose proof (compute_ratio_moderate _ _ Hb Hs) as Hratio.
  destruct (compute_ratio _ _) as [ratio|]; [|done].
  unfold moderate_count in Hb, Hs.
  destruct (as_number (snap_buys_m5 snap)) as [b|]; [|done].
  destruct (as_number (snap_sells_m5 snap)) as [s|]; [|done].
  simpl. unfold format_low_liquidity.
  rewrite (formats_as_float_moderate _ Hl),
    (formats_as_float_moderate _ Hmin).
  rewrite andb_false_r. simpl.
  destruct (classify cfg l b s ratio) as [t rs].
  exists snap. eexists. split; [reflexivity|]. split; [reflexivity|].
  simpl. by split_and!.
Qed.

(** X9.  Lines 72-99 yield a report only for a pair object that has the
    shape [well_shaped]: every other pair object makes them raise (an
    absent base token, symbol or name; a liquidity, [txns] or [m5] that is
    present but not an object, [null] included; a [usd], [buys] or [sells]
    that is present but not a number).  And they do yield a report,
    whatever the identifier, for every pair object of that shape whose
    counts are whole numbers and whose figures, with the liquidity
    threshold, are below 2^1023 in magnitude, so that the division of
    line 80 and the formatting of line 89 stay within the range of a
    float. *)
Theorem analysed_when_well_shaped cfg a pair :
  ((∃ r, analyse cfg a pair = Ok r) -> well_shaped pair = true)
  ∧ (well_shaped pair = true -> moderate_figures cfg pair = true ->
     ∃ r, analyse cfg a pair = Ok r).
Proof.
  split.
  - intros [r Hr]. by eapply analyse_well_shaped.
  - intros Hshape Hm.
    destruct (analyse_moderate cfg a pair Hshape Hm) as (snap & r & _ & Hr & _).
    by exists r.
Qed.

(** The pair of the first scenario is analysed; a pair object without
    base token is not. *)
Lemma analysed_when_well_shaped_witness :
  (∃ r, analyse default_config (VStr "0xa") pair_a = Ok r)
  ∧ ¬ (∃ r, analyse default_config (VStr "0xe")
              (VDict (<["pairAddress" := VStr "0xe"]> ∅)) = Ok r).
Proof.
  split.
  - apply (analysed_when_well_shaped default_config (VStr "0xa") pair_a);
      reflexivity.
  - intros H.
    apply (analysed_when_well_shaped default_config (VStr "0xe")) in H.
    discriminate H.
Defined.

(** The bound on the figures is needed: 10^400 buys make the division of
    line 80 raise, and a liquidity of -10^400 the format of line 89,
    though both pair objects have the right shape. *)
Example huge_figures_raise :
  let h := Q2Qc (inject_Z (10 ^ 400)) in
  let p1 := mk_pair "0xe" (Q2Qc 10000) h (Q2Qc 1) in
  let p2 := mk_pair "0xf" (- h) (Q2Qc 20) (Q2Qc 15) in
  well_shaped p1 = true
  ∧ analyse default_config (VStr "0xe") p1 = Raise OverflowError
  ∧ well_shaped p2 = true
  ∧ analyse default_config (VStr "0xf") p2 = Raise OverflowError.
Proof. split_and!; vm_compute; reflexivity. Qed.

(** ** What a poll reports, in which order *)

Lemma keys_of_cons_ok p l k :
  pair_key p = Ok k -> keys_of (p :: l) = k :: keys_of l.
Proof. intros H. unfold keys_of. simpl. by rewrite H. Qed.

Lemma keys_of_cons_raise p l e :
  pair_key p = Raise e -> keys_of (p :: l) = keys_of l.
Proof. intros H. unfold keys_of. simpl. by rewrite H. Qed.

Lemma for_each_fresh cfg l :
  ∀ s s' res,
    for_each (loop_body cfg) l s = (s', res) ->
    ∃ rs tail,
      stdout s' = (stdout s ++ (NewToken <$> rs) ++ tail)%list
      ∧ reports tail = []
      ∧ (report_key <$> rs)
        `prefix_of` (Some <$> fresh_keys (tracked_pairs s) (keys_of l))
      ∧ (res = Ok tt ->
         tail = []
         ∧ report_key <$> rs
           = Some <$> fresh_keys (tracked_pairs s) (keys_of l)
         ∧ tracked_pairs s'
           = list_to_set (keys_of l) ∪ tracked_pairs s).
Proof.
  induction l as [|p l IH]; intros s s' res Hrun.
  - inversion Hrun; subst. exists [], []. simpl. rewrite app_nil_r.
    split_and!; [done|done|done|]. intros _. split_and!; [done|done|set_solver].
  - simpl in Hrun. unfold bind in Hrun. rewrite loop_body_unfold in Hrun.
    assert (Hstop : ∀ e tail, res = Raise e ->
              stdout s' = (stdout s ++ tail)%list -> reports tail = [] ->
              ∃ rs tail,
                stdout s' = (stdout s ++ (NewToken <$> rs) ++ tail)%list
                ∧ reports tail = []
                ∧ (report_key <$> rs)
                  `prefix_of` (Some <$> fresh_keys (tracked_pairs s)
                                          (keys_of (p :: l)))
                ∧ (res = Ok tt ->
                   tail = []
                   ∧ report_key <$> rs
                     = Some <$> fresh_keys (tracked_pairs s) (keys_of (p :: l))
                   ∧ tracked_pairs s'
                     = list_to_set (keys_of (p :: l)) ∪ tracked_pairs s)).
    { intros e tail -> Hout Htail. exists [], tail. simpl.
      split_and!; [done|done|apply prefix_nil|done]. }
    destruct (getitem p "pairAddress") as [a|e] eqn:Ha;
      [|inversion Hrun; subst; eapply (Hstop _ []); by rewrite ?app_nil_r].
    destruct (to_hashable a) as [k0|e] eqn:Hk0;
      [|inversion Hrun; subst; eapply (Hstop _ []); by rewrite ?app_nil_r].
    assert (Hkey : pair_key p = Ok k0) by (unfold pair_key; by rewrite Ha).
    rewrite (keys_of_cons_ok _ _ _ Hkey) in *. simpl fresh_keys in *.
    case_bool_decide as Hseen.
    + rewrite decide_True by done.
      destruct (IH _ _ _ Hrun) as (rs & tail & Hout & Htail & Hpre & Hok).
      exists rs, tail. split_and!; [done|done|done|].
      intros Hres. destruct (Hok Hres) as (Hnil & Hkeys & Htr).
      split_and!; [done|done|]. rewrite Htr. set_solver.
    + rewrite decide_False in * by done. simpl in Hrun.
      destruct (analyse cfg a p) as [r0|e] eqn:Hr0;
        [|inversion Hrun; subst; eapply (Hstop _ []); by rewrite ?app_nil_r].
      destruct (report_cut cfg r0) as [[c e]|] eqn:Hcut;
        [inversion Hrun; subst; by eapply (Hstop _ [Unfinished r0 c])|].
      destruct (IH _ _ _ Hrun) as (rs & tail & Hout & Htail & Hpre & Hok).
      simpl in Hout, Hpre, Hok.
      exists (r0 :: rs), tail. split_and!.
      * rewrite Hout. simpl. by rewrite <- app_assoc.
      * done.
      * rewrite !fmap_cons, (report_key_analyse _ _ _ _ _ Hr0 Hk0).
        by apply prefix_cons.
      * intros Hres. destruct (Hok Hres) as (Hnil & Hkeys & Htr).
        split_and!; [done| |].
        -- rewrite !fmap_cons, (report_key_analyse _ _ _ _ _ Hr0 Hk0).
           by rewrite Hkeys.
        -- rewrite Htr. set_solver.
Qed.

Lemma new_reports_of_run cfg f s s' res rs tail :
  try_block cfg f s = (s', res) ->
  stdout s' = (stdout s ++ (NewToken <$> rs) ++ tail)%list ->
  reports tail = [] ->
  new_reports cfg f s = rs.
Proof.
  intros Hrun Hout Htail.
  pose proof (reports_check_new_tokens cfg f s) as Hall.
  rewrite (check_new_tokens_reports _ _ _ _ _ Hrun) in Hall.
  rewrite Hout, !reports_app, reports_NewToken, Htail, app_nil_r in Hall.
  by apply app_inv_head in Hall.
Qed.

(** X5.  The reports of a poll follow the order of the listing: their
    identifiers are an initial segment of the identifiers listed, taken in
    listing order, that were not tracked before the poll and not listed
    earlier in the same answer. *)
Theorem reports_follow_the_listing cfg (d : gmap string value) l s :
  d !! "pairs" = Some (VList l) ->
  (report_key <$> new_reports cfg (FetchReturns (VDict d)) s)
  `prefix_of` (Some <$> fresh_keys (tracked_pairs s) (keys_of l)).
Proof.
  intros Hd. pose proof (try_block_listing cfg d l s Hd) as Hrun.
  destruct l as [|p l].
  - destruct (new_reports_print cfg (FetchReturns (VDict d)) s NoNewPairs)
      as [_ ->]; [done| |apply prefix_nil].
    unfold check_new_tokens. by rewrite Hrun.
  - destruct (for_each (loop_body cfg) (p :: l) s) as [s' res] eqn:Hloop.
    destruct (for_each_fresh _ _ _ _ _ Hloop)
      as (rs & tail & Hout & Htail & Hpre & _).
    by rewrite (new_reports_of_run _ _ _ _ _ rs tail Hrun Hout Htail).
Qed.

(** 0xa, then 0xd, then 0xa again with other figures: the identifiers to
    report are 0xa and 0xd, in that order. *)
Lemma reports_follow_the_listing_witness :
  let l := [pair_a; pair_bare; pair_a_changed] in
  let d : gmap string value := <["pairs" := VList l]> ∅ in
  fresh_keys (tracked_pairs initial_state) (keys_of l)
  = [HStr "0xa"; HStr "0xd"]
  ∧ (report_key <$> new_reports default_config (FetchReturns (VDict d))
                      initial_state)
    `prefix_of` (Some <$> fresh_keys (tracked_pairs initial_state)
                            (keys_of l)).
Proof.
  intros l d. split; [vm_compute; reflexivity|].
  apply (reports_follow_the_listing default_config d l initial_state).
  reflexivity.
Defined.

(** ** A listing of well-formed pair objects *)

Lemma processable_inv cfg a p :
  processable cfg p = true -> getitem p "pairAddress" = Ok a ->
  ∃ k r, to_hashable a = Ok k
         ∧ analyse cfg a p = Ok r
         ∧ report_cut cfg r = None.
Proof.
  unfold processable, well_formed, pair_key, printable. intros Hp Ha.
  rewrite Ha in Hp. simpl in Hp.
  apply andb_prop in Hp as [Hp Hprint]. apply andb_prop in Hp as [Hwf Hm].
  apply andb_prop in Hwf as [Hk Hshape].
  destruct (to_hashable a) as [k|]; [|done].
  destruct (analyse_moderate cfg a p Hshape Hm)
    as (snap & r & Hx & Hr & Hname & Hsym & Haddr & Hl).
  rewrite Hx in Hprint.
  apply andb_prop in Hprint as [Hprint Hes].
  apply andb_prop in Hprint as [Hea Hen].
  exists k, r. split_and!; [done|done|].
  unfold report_cut.
  by rewrite Hname, Hsym, Haddr, Hen, Hes, Hea,
    (formats_as_float_moderate _ Hl).
Qed.

Lemma processable_has_address cfg p :
  processable cfg p = true -> ∃ a, getitem p "pairAddress" = Ok a.
Proof.
  unfold processable, well_formed, pair_key. intros Hp.
  destruct (getitem p "pairAddress") as [a|]; [by exists a|done].
Qed.

Lemma for_each_processable cfg l :
  Forall (fun p => processable cfg p = true) l ->
  ∀ s, snd (for_each (loop_body cfg) l s) = Ok tt.
Proof.
  induction l as [|p l IH]; intros Hl s; [done|].
  apply list.Forall_cons in Hl as [Hp Hl].
  simpl. unfold bind. rewrite loop_body_unfold.
  destruct (processable_has_address _ _ Hp) as [a Ha]. rewrite Ha.
  destruct (processable_inv cfg a p Hp Ha) as (k & r & -> & Hr & Hcut).
  case_bool_decide; [by apply IH|]. simpl. rewrite Hr, Hcut. by apply IH.
Qed.

(** X4.  A listing in which every pair object is well formed, with
    moderate figures (whole counts and a liquidity below 2^1023 in
    magnitude, as is the liquidity threshold) and a name, a symbol and an
    address that the standard output can encode, is processed to its end:
    neither [except] clause runs, every identifier listed ends up tracked
    and no other is added, and the identifiers reported are exactly, in
    listing order and once each, those listed that were not tracked before
    the poll. *)
Theorem well_formed_listing_is_processed cfg (d : gmap string value) l s :
  d !! "pairs" = Some (VList l) ->
  Forall (fun p => processable cfg p = true) l ->
  let f := FetchReturns (VDict d) in
  completes cfg f s
  ∧ report_key <$> new_reports cfg f s
    = Some <$> fresh_keys (tracked_pairs s) (keys_of l)
  ∧ tracked_pairs (fst (check_new_tokens cfg f s))
    = list_to_set (keys_of l) ∪ tracked_pairs s.
Proof.
  intros Hd Hl f. subst f. unfold completes.
  pose proof (try_block_listing cfg d l s Hd) as Hrun.
  destruct l as [|p l].
  - rewrite Hrun. split; [done|].
    destruct (new_reports_print cfg (FetchReturns (VDict d)) s NoNewPairs)
      as [_ ->]; [done|unfold check_new_tokens; by rewrite Hrun|].
    split; [done|]. unfold check_new_tokens. rewrite Hrun. simpl. set_solver.
  - pose proof (for_each_processable cfg _ Hl s) as Hok.
    destruct (for_each (loop_body cfg) (p :: l) s) as [s' res] eqn:Hloop.
    simpl in Hok. subst res.
    destruct (for_each_fresh _ _ _ _ _ Hloop)
      as (rs & tail & Hout & Htail & _ & Hfull).
    destruct (Hfull eq_refl) as (_ & Hkeys & Htr).
    rewrite Hrun. split; [done|].
    rewrite (new_reports_of_run _ _ _ _ _ rs tail Hrun Hout Htail).
    split; [done|].
    by rewrite (check_new_tokens_tracked _ _ _ _ _ Hrun).
Qed.

(** On a tracker that has seen 0xa, the listing 0xd, 0xa, 0xd reports 0xd
    once and tracks both. *)
Lemma well_formed_listing_is_processed_witness :
  let s := fst (check_new_tokens default_config (listing [pair_a])
                  initial_state) in
  let l := [pair_bare; pair_a_changed; pair_bare] in
  let f := FetchReturns (VDict (<["pairs" := VList l]> ∅)) in
  fresh_keys (tracked_pairs s) (keys_of l) = [HStr "0xd"]
  ∧ completes default_config f s
  ∧ report_key <$> new_reports default_config f s
    = Some <$> fresh_keys (tracked_pairs s) (keys_of l)
  ∧ tracked_pairs (fst (check_new_tokens default_config f s))
    = list_to_set (keys_of l) ∪ tracked_pairs s.
Proof.
  intros s l f. split; [vm_compute; reflexivity|].
  apply (well_formed_listing_is_processed default_config
           (<["pairs" := VList l]> ∅) l s).
  - reflexivity.
  - repeat constructor.
Defined.

(** Both conditions are needed.  On a console that cannot write the name
    of the token, the report stops after three lines, at line 107; with a
    liquidity of 10^400 it stops after five, at line 109.  The poll ends
    there with the unexpected-error line, and the pair listed behind is
    not reached. *)
Example a_report_cut_short :
  let rich := mk_pair "0xe" (Q2Qc (inject_Z (10 ^ 400))) (Q2Qc 20) (Q2Qc 15) in
  (∃ r, printed plain_console (listing [pair_a; pair_bare]) initial_state
        = [Unfinished r 3; UnexpectedError UnicodeEncodeError])
  ∧ (∃ r, printed default_config (listing [rich; pair_bare]) initial_state
          = [Unfinished r 5; UnexpectedError OverflowError]).
Proof. split; eexists; vm_compute; reflexivity. Qed.

(** ** The same answer polled again *)

Lemma loop_body_seen cfg p k s :
  pair_key p = Ok k -> k ∈ tracked_pairs s -> loop_body cfg p s = (s, Ok tt).
Proof.
  unfold pair_key. intros Hkey Hin. rewrite loop_body_unfold.
  destruct (getitem p "pairAddress") as [a|]; [|done]. simpl in Hkey.
  rewrite Hkey. by rewrite bool_decide_eq_true_2.
Qed.

Lemma for_each_all_tracked cfg l s :
  (∀ p, p ∈ l -> ∃ k, pair_key p = Ok k ∧ k ∈ tracked_pairs s) ->
  for_each (loop_body cfg) l s = (s, Ok tt).
Proof.
  induction l as [|p l IH]; intros Hall; [done|].
  simpl. unfold bind.
  destruct (Hall p) as (k & Hkey & Hin); [left|].
  rewrite (loop_body_seen _ _ _ _ Hkey Hin).
  apply IH. intros q Hq. apply Hall. by right.
Qed.

Lemma for_each_ok_tracked cfg l :
  ∀ s s', for_each (loop_body cfg) l s = (s', Ok tt) ->
          ∀ p, p ∈ l -> ∃ k, pair_key p = Ok k ∧ k ∈ tracked_pairs s'.
Proof.
  induction l as [|p l IH]; intros s s' Hrun q Hq; [by inversion Hq|].
  simpl in Hrun. unfold bind in Hrun.
  destruct (loop_body cfg p s) as [s1 [[]|e]] eqn:Hp; [|done].
  apply elem_of_cons in Hq as [->|Hq]; [|by eapply IH].
  destruct (for_each_loop_body_ok _ _ _ _ Hrun) as (_ & _ & Hsub & _).
  pose proof (loop_body_tracked cfg p s) as Htr. rewrite Hp in Htr.
  simpl in Htr. rewrite loop_body_unfold in Hp. unfold pair_key in *.
  destruct (getitem p "pairAddress") as [a|]; [|done]. simpl in *.
  destruct (to_hashable a) as [k|]; [|done].
  exists k. split; [done|]. apply Hsub. rewrite Htr. set_solver.
Qed.

Lemma try_block_items cfg data s :
  try_block cfg (FetchReturns data) s
  = match no_pairs data with
    | Ok true => print NoNewPairs s
    | Ok false =>
        match getitem data "pairs" ≫= iter with
        | Ok items => for_each (loop_body cfg) items s
        | Raise e => (s, Raise e)
        end
    | Raise e => (s, Raise e)
    end.
Proof.
  unfold try_block, bind, lift. simpl.
  destruct (no_pairs data) as [[|]|e]; try done.
  destruct (getitem data "pairs") as [pairs|e]; [|done]. simpl.
  by destruct (iter pairs).
Qed.

(** X6.  When a poll ran to the end of its try block, polling the same
    answer again reports nothing, tracks nothing more, and again runs to
    the end. *)
Theorem same_answer_again cfg f s :
  completes cfg f s ->
  let s' := fst (check_new_tokens cfg f s) in
  new_reports cfg f s' = []
  ∧ tracked_pairs (fst (check_new_tokens cfg f s')) = tracked_pairs s'
  ∧ completes cfg f s'.
Proof.
  unfold completes. intros Hok. cbv zeta.
  destruct f as [e|data]; [done|].
  destruct (try_block cfg (FetchReturns data) s) as [s1 res] eqn:Hrun.
  simpl in Hok. subst res.
  rewrite (check_new_tokens_tracked _ _ _ _ _ Hrun).
  assert (Hs1 : fst (check_new_tokens cfg (FetchReturns data) s) = s1)
    by (unfold check_new_tokens; by rewrite Hrun).
  rewrite Hs1. rewrite try_block_items in Hrun.
  pose proof (try_block_items cfg data s1) as Hrun1.
  destruct (no_pairs data) as [[|]|e]; [| |done].
  - rewrite Hrun1.
    destruct (new_reports_print cfg (FetchReturns data) s1 NoNewPairs)
      as [_ ->]; [done|unfold check_new_tokens; by rewrite Hrun1|].
    split; [done|]. split; [|done].
    unfold check_new_tokens. by rewrite Hrun1.
  - destruct (getitem data "pairs" ≫= iter) as [items|e]; [|done].
    pose proof (for_each_ok_tracked _ _ _ _ Hrun) as Hall.
    rewrite (for_each_all_tracked cfg items s1 Hall) in Hrun1.
    rewrite Hrun1.
    split_and!;
      [|by rewrite (check_new_tokens_tracked _ _ _ _ _ Hrun1)|done].
    apply (new_reports_of_run _ _ _ _ _ [] [] Hrun1); [|done]. simpl.
    by rewrite app_nil_r.
Qed.

(** 0xa and 0xd listed, then the same listing again. *)
Lemma same_answer_again_witness :
  let f := listing [pair_a; pair_bare] in
  let s' := fst (check_new_tokens default_config f initial_state) in
  new_reports default_config f s' = []
  ∧ tracked_pairs (fst (check_new_tokens default_config f s'))
    = tracked_pairs s'
  ∧ completes default_config f s'.
Proof.
  intros f s'.
  apply (same_answer_again default_config f initial_state).
  reflexivity.
Defined.

(** ** After a pair that raised *)

(** X7.  When the analysis of a new pair raises, the pairs listed behind it
    wait for the next poll: polled again, the same answer skips that pair
    and those before it, all tracked by now, and tracks and reports the
    pairs behind as a listing of these alone would be. *)
Theorem pairs_behind_a_raise_wait cfg (d d2 : gmap string value)
    l1 pair l2 a k e s s1 :
  d !! "pairs" = Some (VList (l1 ++ pair :: l2)) ->
  d2 !! "pairs" = Some (VList l2) ->
  for_each (loop_body cfg) l1 s = (s1, Ok tt) ->
  getitem pair "pairAddress" = Ok a ->
  to_hashable a = Ok k ->
  k ∉ tracked_pairs s1 ->
  analyse cfg a pair = Raise e ->
  let f := FetchReturns (VDict d) in
  let f2 := FetchReturns (VDict d2) in
  let s' := fst (check_new_tokens cfg f s) in
  new_reports cfg f s' = new_reports cfg f2 s'
  ∧ tracked_pairs (fst (check_new_tokens cfg f s'))
    = tracked_pairs (fst (check_new_tokens cfg f2 s')).
Proof.
  intros Hd Hd2 Hl1 Ha Hk Hnew Han f f2 s'.
  assert (Hkey : pair_key pair = Ok k) by (unfold pair_key; by rewrite Ha).
  assert (Hrun : try_block cfg f s
                 = ({| tracked_pairs := {[k]} ∪ tracked_pairs s1;
                       stdout := stdout s1 |}, Raise e)).
  { unfold f. rewrite (try_block_nonempty _ _ _ _ Hd) by (by destruct l1).
    rewrite for_each_app, Hl1. simpl. unfold bind.
    rewrite loop_body_unfold, Ha, Hk.
    rewrite bool_decide_eq_false_2 by done. simpl. by rewrite Han. }
  assert (Htr : tracked_pairs s' = {[k]} ∪ tracked_pairs s1)
    by (unfold s'; by rewrite (check_new_tokens_tracked _ _ _ _ _ Hrun)).
  assert (Hagain : try_block cfg f s' = for_each (loop_body cfg) l2 s').
  { unfold f. rewrite (try_block_nonempty _ _ _ _ Hd) by (by destruct l1).
    rewrite for_each_app.
    rewrite (for_each_all_tracked cfg l1 s').
    - simpl. unfold bind.
      rewrite (loop_body_seen cfg pair k s' Hkey); [done|].
      rewrite Htr. set_solver.
    - intros p Hp.
      destruct (for_each_ok_tracked _ _ _ _ Hl1 p Hp) as (kp & Hkp & Hin).
      exists kp. split; [done|]. rewrite Htr. set_solver. }
  pose proof (try_block_listing cfg d2 l2 s' Hd2) as Hrun2. fold f2 in Hrun2.
  destruct l2 as [|p2 l2].
  - simpl in Hagain. split.
    + apply new_reports_eq.
      rewrite (check_new_tokens_reports _ _ _ _ _ Hagain),
              (check_new_tokens_reports _ _ _ _ _ Hrun2).
      simpl. by rewrite reports_app, app_nil_r.
    + by rewrite (check_new_tokens_tracked _ _ _ _ _ Hagain),
                 (check_new_tokens_tracked _ _ _ _ _ Hrun2).
  - assert (Hsame : check_new_tokens cfg f s' = check_new_tokens cfg f2 s')
      by (unfold check_new_tokens; by rewrite Hagain, Hrun2).
    split; [|by rewrite Hsame].
    unfold new_reports, printed. by rewrite Hsame.
Qed.

(** The pair without symbol, then 0xa: the first poll reports nothing, the
    second reports 0xa. *)
Lemma pairs_behind_a_raise_wait_witness :
  let f := listing [pair_without_symbol; pair_a] in
  let s' := fst (check_new_tokens default_config f initial_state) in
  new_reports default_config f initial_state = []
  ∧ new_reports default_config f s'
    = new_reports default_config (listing [pair_a]) s'
  ∧ tracked_pairs (fst (check_new_tokens default_config f s'))
    = tracked_pairs (fst (check_new_tokens default_config
                            (listing [pair_a]) s')).
Proof.
  intros f s'. split; [vm_compute; reflexivity|].
  apply (pairs_behind_a_raise_wait default_config
           (<["pairs" := VList [pair_without_symbol; pair_a]]> ∅)
           (<["pairs" := VList [pair_a]]> ∅)
           [] pair_without_symbol [pair_a] (VStr "0xc") (HStr "0xc") KeyError
           initial_state initial_state).
  - reflexivity.
  - reflexivity.
  - reflexivity.
  - reflexivity.
  - reflexivity.
  - apply (bool_decide_unpack _). vm_compute. exact I.
  - reflexivity.
Defined.

(** ** Absent figures and the thresholds *)

Lemma extract_inv pair snap :
  extract pair = Ok snap ->
  read_liquidity_usd pair = Ok (snap_liquidity_usd snap)
  ∧ read_txns_m5 pair = Ok (snap_buys_m5 snap, snap_sells_m5 snap).
Proof.
  unfold extract. intros H.
  destruct (read_base_token pair) as [[sym name]|]; [|done]. simpl in H.
  destruct (read_liquidity_usd pair) as [u|]; [|done]. simpl in H.
  destruct (read_txns_m5 pair) as [[bv sv]|]; [|done]. simpl in H.
  by inversion H.
Qed.

(** X8.  A pair object without liquidity object is reported with liquidity
    0 and, as soon as the minimum liquidity is positive, flagged for low
    liquidity; a pair object without [txns] object is reported with no buy,
    no sell and the ratio 1 and, as soon as the minimum number of
    transactions is positive, flagged for low volume. *)
Theorem absent_figures_are_flagged cfg a (d : gmap string value) r :
  analyse cfg a (VDict d) = Ok r ->
  (d !! "liquidity" = None ->
   liquidity_usd r = 0
   ∧ (0 < MIN_LIQUIDITY_USD cfg ->
      is_trustworthy r = false
      ∧ LowLiquidity 0 (MIN_LIQUIDITY_USD cfg) ∈ reasons r))
  ∧ (d !! "txns" = None ->
     buys_m5 r = 0 ∧ sells_m5 r = 0 ∧ buy_sell_ratio r = 1
     ∧ (0 < MIN_TXNS_M5 cfg ->
        is_trustworthy r = false
        ∧ LowVolume 0 (MIN_TXNS_M5 cfg) ∈ reasons r)).
Proof.
  intros Han.
  destruct (analyse_inv _ _ _ _ Han)
    as (snap & Hx & Hl & Hb & Hs & Hratio & Hc).
  destruct (extract_inv _ _ Hx) as [Hliq Htx].
  pose proof (classify_spec cfg (liquidity_usd r) (buys_m5 r) (sells_m5 r)
                (buy_sell_ratio r)) as Hspec.
  rewrite Hc in Hspec. simpl in Hspec.
  destruct Hspec as (Htrust & HL & HV & _).
  split.
  - intros Hnone.
    unfold read_liquidity_usd in Hliq. simpl in Hliq. rewrite Hnone in Hliq.
    simpl in Hliq. rewrite lookup_empty in Hliq. simpl in Hliq.
    inversion Hliq as [Hu]. rewrite <- Hu in Hl. simpl in Hl.
    inversion Hl as [H0]. split; [done|]. intros Hpos.
    rewrite <- H0 in HL, Htrust. split; [|by apply HL].
    destruct (is_trustworthy r); [|done].
    destruct (proj1 Htrust eq_refl) as [Hle _].
    by destruct (Qcle_not_lt _ _ Hle Hpos).
  - intros Hnone.
    unfold read_txns_m5, no_txns in Htx. simpl in Htx. rewrite Hnone in Htx.
    simpl in Htx. rewrite lookup_empty in Htx. simpl in Htx.
    rewrite lookup_insert_eq in Htx.
    rewrite (lookup_insert_ne _ "buys" "sells") in Htx by done.
    rewrite lookup_insert_eq in Htx. simpl in Htx.
    inversion Htx as [[Hbv Hsv]].
    rewrite <- Hbv in Hb, Hratio. rewrite <- Hsv in Hs, Hratio.
    simpl in Hb, Hs. inversion Hb as [Hb0]. inversion Hs as [Hs0].
    assert (Hone : compute_ratio (VNum 0) (VNum 0) = Ok 1)
      by (vm_compute; reflexivity).
    rewrite Hone in Hratio. inversion Hratio as [Hr1].
    split_and!; [done|done|done|]. intros Hpos.
    rewrite <- Hb0, <- Hs0, Qcplus_0_l in HV, Htrust.
    split; [|by apply HV].
    destruct (is_trustworthy r); [|done].
    destruct (proj1 Htrust eq_refl) as (_ & Hle & _).
    by destruct (Qcle_not_lt _ _ Hle Hpos).
Qed.

(** The bare pair under the default thresholds. *)
Lemma absent_figures_are_flagged_witness :
  ∃ r, analyse default_config (VStr "0xd") pair_bare = Ok r
       ∧ liquidity_usd r = 0
       ∧ buys_m5 r = 0 ∧ sells_m5 r = 0 ∧ buy_sell_ratio r = 1
       ∧ is_trustworthy r = false.
Proof.
  assert (Hr : ∃ r, analyse default_config (VStr "0xd") pair_bare = Ok r)
    by (eexists; vm_compute; reflexivity).
  destruct Hr as [r Hr]. exists r. split; [exact Hr|].
  destruct (absent_figures_are_flagged default_config (VStr "0xd") _ r Hr)
    as [Hliq Htx].
  destruct (Hliq eq_refl) as [Hl0 Hflag].
  destruct (Htx eq_refl) as (Hb0 & Hs0 & Hr1 & _).
  split_and!; [done|done|done|done|].
  apply Hflag. reflexivity.
Defined.

(** ** Stricter thresholds, better figures *)

(** X10.  The verdict is monotone: a pair trustworthy under thresholds is
    trustworthy under any thresholds that are no stricter, and stays
    trustworthy when its liquidity is higher, its counts and ratio being
    the same. *)
Theorem verdict_is_monotone cfg cfg' l l' b s ratio :
  stricter cfg cfg' ->
  l ≤ l' ->
  fst (classify cfg' l b s ratio) = true ->
  fst (classify cfg l b s ratio) = true
  ∧ fst (classify cfg' l' b s ratio) = true.
Proof.
  intros (HL & HT & Hmin & Hmax) Hll Hstrict.
  apply (proj1 (classify_spec cfg' l b s ratio)) in Hstrict
    as (H1 & H2 & H3 & H4).
  split.
  - apply (proj1 (classify_spec cfg l b s ratio)).
    split_and!; by eapply Qcle_trans.
  - apply (proj1 (classify_spec cfg' l' b s ratio)).
    split_and!; try done. by eapply Qcle_trans.
Qed.

(** Liquidity 20000, 30 buys, 20 sells pass the strict thresholds, hence
    the default ones, also with liquidity 30000. *)
Lemma verdict_is_monotone_witness :
  fst (classify default_config (Q2Qc 20000) (Q2Qc 30) (Q2Qc 20)
         (Q2Qc (3 # 2))) = true
  ∧ fst (classify strict_config (Q2Qc 30000) (Q2Qc 30) (Q2Qc 20)
           (Q2Qc (3 # 2))) = true.
Proof.
  apply (verdict_is_monotone default_config strict_config
           (Q2Qc 20000) (Q2Qc 30000)).
  - unfold stricter. split_and!; by vm_compute.
  - by vm_compute.
  - vm_compute. reflexivity.
Defined.

(** ** A listing of known pairs *)

(** X11.  A poll whose listing is not empty and holds only pair objects
    with tracked identifiers prints nothing at all, not even the "No new
    pairs found." line, and changes nothing: each pair is skipped at line
    66 before any other of its fields is read, well formed or not. *)
Theorem known_pairs_are_silent cfg (d : gmap string value) l s :
  d !! "pairs" = Some (VList l) ->
  l ≠ [] ->
  (∀ p, p ∈ l -> ∃ k, pair_key p = Ok k ∧ k ∈ tracked_pairs s) ->
  check_new_tokens cfg (FetchReturns (VDict d)) s = (s, None)
  ∧ printed cfg (FetchReturns (VDict d)) s = [].
Proof.
  intros Hd Hne Hall.
  assert (Hrun : check_new_tokens cfg (FetchReturns (VDict d)) s = (s, None)).
  { unfold check_new_tokens.
    rewrite (try_block_nonempty _ _ _ _ Hd Hne).
    by rewrite (for_each_all_tracked cfg l s Hall). }
  split; [done|]. unfold printed. rewrite Hrun. simpl.
  by rewrite drop_all.
Qed.

(** After the pair without symbol was tracked, a listing of it alone is
    polled in silence. *)
Lemma known_pairs_are_silent_witness :
  let f := listing [pair_without_symbol] in
  let s := fst (check_new_tokens default_config f initial_state) in
  check_new_tokens default_config f s = (s, None)
  ∧ printed default_config f s = [].
Proof.
  intros f s.
  apply (known_pairs_are_silent default_config
           (<["pairs" := VList [pair_without_symbol]]> ∅)
           [pair_without_symbol] s).
  - reflexivity.
  - discriminate.
  - intros p Hp. apply list_elem_of_singleton in Hp. subst p.
    exists (HStr "0xc"). split; [reflexivity|].
    apply (bool_decide_unpack _). vm_compute. exact I.
Defined.

(** ** The interrupt at any statement *)

Lemma under_clock_stmt {A} (m : M A) :
  under_clock (stmt m) m (fun s s' => s' = s).
Proof.
  intros [[|n]|] s; simpl.
  - left. split_and!; [by split; [eexists|]|done|done].
  - destruct (m s) as [s' r]. right. split; [|done].
    right. by split; eexists.
  - destruct (m s) as [s' r]. right. split; [|done]. by left.
Qed.

Lemma under_clock_ret {A} (a : A) :
  under_clock (ret_i a) (ret a) (fun _ _ => False).
Proof.
  intros c s. simpl. right. split; [|done].
  destruct c; [right; by split; eexists|by left].
Qed.

Lemma under_clock_bind {A B} (mi : MI A) (m : M A) (fi : A -> MI B)
    (f : A -> M B) Q1 Q2 :
  under_clock mi m Q1 ->
  (∀ a, under_clock (fi a) (f a) (Q2 a)) ->
  under_clock (bind_i mi fi) (bind m f)
    (fun s s' => Q1 s s' ∨ ∃ a s1, m s = (s1, Ok a) ∧ Q2 a s1 s').
Proof.
  intros Hm Hf c s. unfold bind_i, bind.
  specialize (Hm c s). destruct (mi c s) as [[s1 r1] c1].
  destruct Hm as [(Harr & -> & HQ)|(Hq & Hms)].
  - left. split_and!; [done|done|by left].
  - rewrite Hms. destruct r1 as [a|e]; [|by right].
    specialize (Hf a c1 s1). destruct (fi a c1 s1) as [[s2 r2] c2].
    destruct Hf as [((Hsome & ->) & -> & HQ)|(Hq2 & Hfs)].
    + left. split_and!; [|done|right; by exists a, s1].
      split; [|done]. destruct Hq as [[-> ->]|[Hc _]]; [by destruct Hsome|done].
    + right. split; [|done].
      destruct Hq as [[-> ->]|[Hc Hc1]].
      * destruct Hq2 as [[_ ->]|[[] _]]; [by left|done].
      * destruct Hq2 as [[-> _]|[_ Hc2]]; [by destruct Hc1|by right].
Qed.

Lemma under_clock_weaken {A} (mi : MI A) (m : M A) (Q Q' : state -> state -> Prop) :
  under_clock mi m Q -> (∀ s s', Q s s' -> Q' s s') -> under_clock mi m Q'.
Proof.
  intros H HQ c s. specialize (H c s). destruct (mi c s) as [[s' r] c'].
  destruct H as [(? & ? & ?)|?]; [left|right]; auto.
Qed.

Lemma report_cut_pos cfg r k e : report_cut cfg r = Some (k, e) -> (0 < k)%nat.
Proof.
  unfold report_cut.
  repeat (destruct (negb _); [intros [= <- <-]; lia|]). done.
Qed.

Lemma under_clock_print_report cfg r :
  under_clock (print_report_i cfg r) (print_report cfg r)
    (fun s s' => s' = s ∨ ∃ n, s' = fst (print (Unfinished r n) s)).
Proof.
  intros c s. unfold print_report_i, print_report.
  destruct (report_cut cfg r) as [[k e]|] eqn:Hcut.
  - destruct c as [n|].
    + destruct (Nat.ltb_spec n k) as [Hlt|Hge].
      * left. split_and!; [by split; [eexists|]|done|].
        destruct n as [|n]; [by left|right; by eexists].
      * destruct (n - k)%nat as [|m] eqn:Hm; simpl.
        -- left. split_and!; [by split; [eexists|]|done|].
           right. by eexists.
        -- right. split; [right; by split; eexists|done].
    + simpl. right. split; [by left|done].
  - destruct c as [n|].
    + destruct (Nat.ltb_spec n (report_lines r)) as [Hlt|Hge].
      * left. split_and!; [by split; [eexists|]|done|].
        destruct n as [|n]; [by left|right; by eexists].
      * right. split; [right; by split; eexists|done].
    + right. split; [by left|done].
Qed.

Lemma under_clock_tail cfg p a k :
  under_clock
    (bind_i (stmt (track k)) (fun _ =>
       bind_i (stmt (lift (analyse cfg a p))) (fun r => print_report_i cfg r)))
    (bind (track k) (fun _ =>
       bind (lift (analyse cfg a p)) (fun r => print_report cfg r)))
    (fun s s' =>
       s' = s
       ∨ s' = fst (track k s)
       ∨ ∃ r n, analyse cfg a p = Ok r
                ∧ s' = fst (print (Unfinished r n) (fst (track k s)))).
Proof.
  eapply under_clock_weaken.
  - apply under_clock_bind; [apply under_clock_stmt|]. intros u.
    apply under_clock_bind; [apply under_clock_stmt|]. intros r.
    apply under_clock_print_report.
  - simpl. intros s s' [->|(u & s1 & Htrack & H)]; [by left|].
    unfold track in Htrack. injection Htrack as <-.
    destruct H as [->|(r & s2 & Han & H)]; [right; by left|].
    unfold lift in Han. injection Han as <- Han.
    destruct H as [->|[n ->]]; [right; by left|].
    right. right. by exists r, n.
Qed.

Lemma under_clock_loop_body cfg p :
  under_clock (loop_body_i cfg p) (loop_body cfg p) (interrupted_body cfg p).
Proof.
  eapply under_clock_weaken.
  - unfold loop_body_i, loop_body.
    apply under_clock_bind; [apply under_clock_stmt|]. intros a.
    apply under_clock_bind; [apply under_clock_stmt|]. intros k.
    apply under_clock_bind; [apply under_clock_stmt|]. intros seen.
    apply (under_clock_weaken _ _
             (if seen then fun _ _ => False
              else fun s s' =>
                s' = s
                ∨ s' = fst (track k s)
                ∨ ∃ r n, analyse cfg a p = Ok r
                         ∧ s' = fst (print (Unfinished r n) (fst (track k s))))
             (fun s s' =>
                seen = false
                ∧ (s' = s
                   ∨ s' = fst (track k s)
                   ∨ ∃ r n, analyse cfg a p = Ok r
                            ∧ s' = fst (print (Unfinished r n)
                                          (fst (track k s)))))).
    + destruct seen; [apply under_clock_ret|apply under_clock_tail].
    + intros s s' H. by destruct seen.
  - simpl. intros s s' [->|(a & s1 & Ha & H)]; [by left|].
    unfold lift in Ha. injection Ha as <- Hget.
    destruct H as [->|(k & s1 & Hk & H)]; [by left|].
    unfold lift in Hk. injection Hk as <- Hhash.
    destruct H as [->|(seen & s1 & Hseen & -> & H)]; [by left|].
    unfold is_tracked in Hseen. injection Hseen as <- Hin.
    apply bool_decide_eq_false in Hin.
    destruct H as [->|H]; [by left|].
    right. by exists a, k.
Qed.

Lemma under_clock_for_each cfg l :
  under_clock (for_each_i (loop_body_i cfg) l) (for_each (loop_body cfg) l)
    (fun s s' =>
       ∃ l1 p l2 s1,
         l = (l1 ++ p :: l2)%list
         ∧ for_each (loop_body cfg) l1 s = (s1, Ok tt)
         ∧ interrupted_body cfg p s1 s').
Proof.
  induction l as [|p l IH]; simpl.
  - eapply under_clock_weaken; [apply under_clock_ret|done].
  - eapply under_clock_weaken.
    + apply under_clock_bind; [apply under_clock_loop_body|].
      intros u. apply IH.
    + simpl. intros s s' [H|([] & s1 & Hp & l1 & q & l2 & s2 & -> & Hl1 & H)].
      * by exists [], p, l, s.
      * exists (p :: l1), q, l2, s2. split_and!; [done| |done].
        simpl. unfold bind. by rewrite Hp.
Qed.

Lemma under_clock_try_block cfg f :
  under_clock (try_block_i cfg f) (try_block cfg f)
    (fun s s' =>
       s' = s
       ∨ ∃ l1 p l2 s1,
           items_of f = (l1 ++ p :: l2)%list
           ∧ for_each (loop_body cfg) l1 s = (s1, Ok tt)
           ∧ interrupted_body cfg p s1 s').
Proof.
  eapply under_clock_weaken.
  - unfold try_block_i, try_block.
    apply under_clock_bind; [apply under_clock_stmt|]. intros data.
    apply under_clock_bind; [apply under_clock_stmt|]. intros none.
    apply (under_clock_weaken _ _
             (if none then fun s s' => s' = s
              else fun s s' =>
                s' = s
                ∨ ∃ pairs s1,
                    lift (getitem data "pairs") s = (s1, Ok pairs)
                    ∧ (s' = s1
                       ∨ ∃ items s2,
                           lift (iter pairs) s1 = (s2, Ok items)
                           ∧ ∃ l1 p l2 s3,
                               items = (l1 ++ p :: l2)%list
                               ∧ for_each (loop_body cfg) l1 s2 = (s3, Ok tt)
                               ∧ interrupted_body cfg p s3 s'))
             (fun s s' =>
                s' = s
                ∨ (none = false
                   ∧ ∃ pairs items l1 p l2 s3,
                       getitem data "pairs" = Ok pairs
                       ∧ iter pairs = Ok items
                       ∧ items = (l1 ++ p :: l2)%list
                       ∧ for_each (loop_body cfg) l1 s = (s3, Ok tt)
                       ∧ interrupted_body cfg p s3 s'))).
    + destruct none; [apply under_clock_stmt|].
      apply under_clock_bind; [apply under_clock_stmt|]. intros pairs.
      apply under_clock_bind; [apply under_clock_stmt|]. intros items.
      apply under_clock_for_each.
    + intros s s' H. destruct none; [by left|].
      destruct H as [->|(pairs & s1 & Hp & H)]; [by left|].
      unfold lift in Hp. injection Hp as <- Hp.
      destruct H as [->|(items & s2 & Hi & l1 & p & l2 & s3 & H)]; [by left|].
      unfold lift in Hi. injection Hi as <- Hi.
      right. split; [done|]. by exists pairs, items, l1, p, l2, s3.
  - simpl. intros s s' [->|(data & s1 & Hf & H)]; [by left|].
    unfold lift in Hf. injection Hf as <- Hf.
    destruct H as [->|(none & s1 & Hn & H)]; [by left|].
    unfold lift in Hn. injection Hn as <- Hn.
    destruct H as [->|(-> & pairs & items & l1 & p & l2 & s3 & Hp & Hi & -> & H)];
      [by left|].
    right. exists l1, p, l2, s3. split; [|done].
    destruct f as [e|data']; [done|]. simpl in Hf. injection Hf as ->.
    simpl. by rewrite Hn, Hp; simpl; rewrite Hi.
Qed.

Lemma check_new_tokens_under_clock cfg f c s :
  let '(s', r, c') := check_new_tokens_i cfg f c s in
  (arrived c c' ∧ r = Raise KeyboardInterrupt ∧ interrupted_poll cfg f s s')
  ∨ (quiet c c' ∧ check_new_tokens cfg f s = (s', escaping r)).
Proof.
  unfold check_new_tokens_i, check_new_tokens.
  pose proof (under_clock_try_block cfg f c s) as H.
  destruct (try_block_i cfg f c s) as [[s1 r1] c1].
  destruct H as [(Harr & -> & HQ)|(Hq & Hrun)].
  - simpl. left. split_and!; [done|done|].
    destruct HQ as [->|HQ]; [by left|right; by left].
  - rewrite Hrun. destruct r1 as [[]|e]; [by right|].
    assert (Hhandler : ∀ l,
      let '(s', r, c') := stmt (print l) c1 s1 in
      (arrived c c' ∧ r = Raise KeyboardInterrupt ∧ interrupted_poll cfg f s s')
      ∨ (quiet c c' ∧ (fst (print l s1), None) = (s', escaping r))).
    { intros l. destruct c1 as [[|n]|]; simpl.
      - left. split_and!; [|done|right; right; by exists e].
        split; [|done]. by destruct Hq as [[_ [=]]|[? _]].
      - right. split; [|done]. destruct Hq as [[_ [=]]|[? _]].
        right. by split; [|eexists].
      - right. split; [|done]. destruct Hq as [[-> _]|[_ []]]; [by left|done]. }
    destruct (is_RequestException e); [apply Hhandler|].
    destruct (is_Exception e); [apply Hhandler|]. by right.
Qed.

Lemma tracker_inv_track k s :
  tracker_inv s -> tracker_inv (fst (track k s)).
Proof.
  intros [Hnd Hin]. split; [done|]. simpl. intros r Hr.
  destruct (Hin r Hr) as (k' & Hk' & Htr). exists k'. split; [done|set_solver].
Qed.

Lemma tracker_inv_loop_post cfg l s s' rs tail :
  tracker_inv s ->
  stdout s' = (stdout s ++ (NewToken <$> rs) ++ tail)%list ->
  reports tail = [] ->
  loop_post cfg l s s' rs ->
  tracker_inv s'.
Proof.
  intros [Hnd Hin] Hout Htail (Hsub & Hnd' & Hrs). unfold tracker_inv.
  rewrite Hout, !reports_app, reports_NewToken, Htail, app_nil_r.
  split.
  - rewrite fmap_app. apply list.NoDup_app. split_and!; [done| |done].
    intros x Hold Hnew.
    apply list_elem_of_fmap in Hold as (r & -> & Hr).
    apply list_elem_of_fmap in Hnew as (r' & Heq & Hr').
    destruct (Hin r Hr) as (k & Hk & Hktr).
    destruct (Hrs r' Hr') as (k' & _ & Hk' & Hfresh & _).
    rewrite Hk, Hk' in Heq. inversion Heq; subst. done.
  - intros r Hr. apply elem_of_app in Hr as [Hr|Hr].
    + destruct (Hin r Hr) as (k & Hk & Hktr). exists k. split; [done|].
      by apply Hsub.
    + destruct (Hrs r Hr) as (k & _ & Hk & _ & Hktr & _). by exists k.
Qed.

(** What an interrupted poll leaves extends what was there, and keeps the
    invariant of the tracker. *)
Lemma interrupted_poll_extends cfg f s s' :
  interrupted_poll cfg f s s' ->
  tracked_pairs s ⊆ tracked_pairs s'
  ∧ stdout s `prefix_of` stdout s'
  ∧ (tracker_inv s -> tracker_inv s').
Proof.
  intros [->|[(l1 & p & l2 & s1 & _ & Hl1 & Hbody)|[e Hrun]]].
  - done.
  - destruct (for_each_loop_body _ _ _ _ _ Hl1)
      as (rs & tail & Hout & Htail & _ & Hpost).
    assert (Hinv : tracker_inv s -> tracker_inv s1)
      by (intros Hs; by eapply tracker_inv_loop_post).
    destruct Hpost as (Hsub & _).
    assert (Hpre : stdout s `prefix_of` stdout s1)
      by (rewrite Hout; by eexists).
    destruct Hbody as [->|(a & k & _ & _ & _ & [->|(r & n & _ & ->)])].
    + done.
    + split_and!; [simpl; set_solver|done|].
      intros Hs. by apply tracker_inv_track, Hinv.
    + split_and!; [simpl; set_solver| |].
      * simpl. etrans; [exact Hpre|]. by eexists.
      * intros Hs. apply (tracker_inv_print (Unfinished r n)); [done|].
        by apply tracker_inv_track, Hinv.
  - destruct (try_block_spec _ _ _ _ _ Hrun)
      as (rs & tail & Hout & Htail & Hpost).
    split_and!; [by destruct Hpost|rewrite Hout; by eexists|].
    intros Hs. by eapply tracker_inv_loop_post.
Qed.

Lemma items_of_try_block cfg f s p l :
  items_of f = p :: l -> try_block cfg f s = for_each (loop_body cfg) (p :: l) s.
Proof.
  destruct f as [e|data]; [done|]. unfold items_of. intros Hitems.
  rewrite try_block_items.
  destruct (no_pairs data) as [[|]|]; try done.
  destruct (getitem data "pairs" ≫= iter) as [items|]; [|done].
  by rewrite Hitems.
Qed.

Lemma for_each_extends cfg l s s' res :
  for_each (loop_body cfg) l s = (s', res) ->
  tracked_pairs s ⊆ tracked_pairs s'
  ∧ reports (stdout s) `prefix_of` reports (stdout s').
Proof.
  intros Hrun.
  destruct (for_each_loop_body _ _ _ _ _ Hrun)
    as (rs & tail & Hout & _ & _ & Hsub & _).
  split; [done|]. rewrite Hout, reports_app. by eexists.
Qed.

(** An interrupted poll has tracked only identifiers that the poll tracks
    when it is not interrupted, and has written only reports that it
    writes then, in the same order. *)
Lemma interrupted_poll_within cfg f s s' :
  interrupted_poll cfg f s s' ->
  tracked_pairs s' ⊆ tracked_pairs (fst (check_new_tokens cfg f s))
  ∧ reports (stdout s')
    `prefix_of` reports (stdout (fst (check_new_tokens cfg f s))).
Proof.
  intros [->|[(l1 & p & l2 & s1 & Hitems & Hl1 & Hbody)|[e Hrun]]].
  - split; [apply tracked_pairs_mono|].
    rewrite reports_check_new_tokens. by eexists.
  - assert (Hrun : try_block cfg f s = for_each (loop_body cfg) (p :: l2) s1).
    { destruct l1 as [|q l1].
      - simpl in Hl1. injection Hl1 as <-. by apply items_of_try_block.
      - rewrite (items_of_try_block cfg f s q (l1 ++ p :: l2)) by done.
        change (q :: l1 ++ p :: l2)%list with ((q :: l1) ++ p :: l2)%list.
        by rewrite for_each_app, Hl1. }
    destruct (for_each (loop_body cfg) (p :: l2) s1) as [s2 res] eqn:Hrest.
    rewrite (check_new_tokens_tracked _ _ _ _ _ Hrun),
      (check_new_tokens_reports _ _ _ _ _ Hrun).
    destruct (for_each_extends _ _ _ _ _ Hrest) as [Hsub Hpre].
    destruct Hbody as [->|(a & k & Ha & Hk & Hnew & Hs')]; [done|].
    assert (Hin : k ∈ tracked_pairs s2).
    { simpl in Hrest. unfold bind in Hrest.
      pose proof (loop_body_tracked cfg p s1) as Htr.
      unfold pair_key in Htr. rewrite Ha in Htr. simpl in Htr.
      rewrite Hk in Htr.
      destruct (loop_body cfg p s1) as [s3 [[]|e]]; simpl in Htr.
      - destruct (for_each_extends _ _ _ _ _ Hrest) as [Hsub3 _].
        apply Hsub3. rewrite Htr. set_solver.
      - injection Hrest as <- _. rewrite Htr. set_solver. }
    destruct Hs' as [->|(r & n & _ & ->)]; simpl.
    + split; [set_solver|done].
    + split; [set_solver|]. by rewrite reports_app, app_nil_r.
  - rewrite (check_new_tokens_tracked _ _ _ _ _ Hrun),
      (check_new_tokens_reports _ _ _ _ _ Hrun). done.
Qed.

(** X13.  A poll under the clock is either not interrupted, and is then
    the poll of [check_new_tokens], or it is left by KeyboardInterrupt,
    which neither [except] clause catches, in a state that an interrupted
    poll leaves.  That state extends the initial one and lies within what
    the poll does when it is not interrupted: the identifiers tracked are
    among those it tracks then, the complete reports written are an
    initial segment of those it writes then, and the tracker stays
    consistent. *)
Theorem interrupted_poll_outcome cfg f c s :
  let '(s', r, c') := check_new_tokens_i cfg f c s in
  (quiet c c' ∧ check_new_tokens cfg f s = (s', escaping r))
  ∨ (arrived c c'
     ∧ r = Raise KeyboardInterrupt
     ∧ interrupted_poll cfg f s s'
     ∧ tracked_pairs s ⊆ tracked_pairs s'
     ∧ tracked_pairs s' ⊆ tracked_pairs (fst (check_new_tokens cfg f s))
     ∧ stdout s `prefix_of` stdout s'
     ∧ reports (stdout s')
       `prefix_of` reports (stdout (fst (check_new_tokens cfg f s)))
     ∧ (tracker_inv s -> tracker_inv s')).
Proof.
  pose proof (check_new_tokens_under_clock cfg f c s) as H.
  destruct (check_new_tokens_i cfg f c s) as [[s' r] c'].
  destruct H as [(Harr & -> & HQ)|H]; [right|by left].
  destruct (interrupted_poll_extends _ _ _ _ HQ) as (Hsub & Hpre & Hinv).
  destruct (interrupted_poll_within _ _ _ _ HQ) as (Hsub' & Hpre').
  by split_and!.
Qed.

(** The interrupt arrives after line 69 and before line 104: 0xa is
    tracked and nothing is written. *)
Example tracked_then_interrupted :
  ∃ s, check_new_tokens_i default_config (listing [pair_a]) (Some 8%nat)
         initial_state
       = (s, Raise KeyboardInterrupt, None)
       ∧ stdout s = []
       ∧ bool_decide (HStr "0xa" ∈ tracked_pairs s) = true.
Proof. eexists. split_and!; vm_compute; reflexivity. Qed.

Lemma arrived_later (c c0 c' : clock) :
  quiet c c0 -> arrived c0 c' -> arrived c c'.
Proof. unfold arrived, quiet, is_Some. naive_solver. Qed.

Lemma quiet_trans (c c0 c' : clock) :
  quiet c c0 -> quiet c0 c' -> quiet c c'.
Proof. unfold quiet, is_Some. naive_solver. Qed.

Lemma quiet_refl (c : clock) : quiet c c.
Proof. unfold quiet, is_Some. destruct c; naive_solver. Qed.

Lemma stmt_cases {A} (m : M A) c s :
  (stmt m c s = (s, Raise KeyboardInterrupt, None) ∧ arrived c None)
  ∨ ∃ c0, stmt m c s = (m s, c0) ∧ quiet c c0.
Proof.
  unfold arrived, quiet, is_Some. destruct c as [[|n]|]; simpl; naive_solver.
Qed.

Lemma poll_loop_under_clock cfg fs :
  ∀ c s,
    let '(s', r, c') := poll_loop_i cfg fs c s in
    (arrived c c' ∧ r = Raise KeyboardInterrupt
     ∧ ∃ fs1 f fs2 s1,
         fs = (fs1 ++ f :: fs2)%list
         ∧ poll_loop cfg fs1 s = (s1, None)
         ∧ interrupted_poll cfg f s1 s')
    ∨ (quiet c c' ∧ poll_loop cfg fs s = (s', escaping r)).
Proof.
  induction fs as [|f fs IH]; intros c s; simpl.
  - right. split; [apply quiet_refl|done].
  - unfold bind_i.
    destruct (stmt_cases (ret tt) c s) as [[-> Harr]|(c0 & -> & Hq0)].
    { left. split_and!; [done|done|]. exists [], f, fs, s.
      split_and!; [done|done|by left]. }
    simpl.
    pose proof (check_new_tokens_under_clock cfg f c0 s) as Hf.
    destruct (check_new_tokens_i cfg f c0 s) as [[s1 r1] c1].
    destruct Hf as [(Harr & -> & HQ)|(Hq & Hrun)].
    { left. split_and!; [by eapply arrived_later|done|].
      by exists [], f, fs, s. }
    rewrite Hrun. destruct r1 as [[]|e]; simpl;
      [|right; split; [by eapply quiet_trans|done]].
    specialize (IH c1 s1). destruct (poll_loop_i cfg fs c1 s1) as [[s2 r2] c2].
    destruct IH as [(Harr & -> & fs1 & g & fs2 & s3 & -> & Hfs1 & HQ)
                   |(Hq2 & Hrest)].
    + left. split_and!; [|done|].
      * eapply arrived_later; [|exact Harr]. by eapply quiet_trans.
      * exists (f :: fs1), g, fs2, s3. split_and!; [done| |done].
        simpl. by rewrite Hrun.
    + right. split; [|done]. eapply quiet_trans; [|exact Hq2].
      by eapply quiet_trans.
Qed.

Lemma escaping_None {A} (r : result A) : escaping r = None -> ∃ a, r = Ok a.
Proof. destruct r as [a|]; [by exists a|done]. Qed.

(** X12.  An interrupt of the user that arrives before any statement of a
    run of [main], after the banner, leaves no other exception than
    KeyboardInterrupt and keeps the tracker consistent: no identifier has
    been reported twice and every identifier reported is tracked.  When it
    arrives during the first check (line 134, outside the [try]) it
    leaves [main] as KeyboardInterrupt, in the state that the interrupted
    poll left or, as the call returns, in the state of the complete poll.
    When it arrives later, during a pause or at any statement of a later
    poll, it is caught: [main] returns normally, the polls made before
    count in full, what the interrupted poll had done stays, and
    "Token tracker stopped." is printed last.  When it does not arrive
    during the polls given, the run is the run of [main]. *)
Theorem interrupt_at_any_statement cfg f0 fs c :
  Forall (fun f => contained f = true) (f0 :: fs) ->
  let '(s, r, c') := main_i cfg (f0 :: fs) c in
  tracker_inv s
  ∧ (quiet c c' -> r = Ok tt ∧ main cfg (f0 :: fs) = (s, None))
  ∧ (arrived c c' ->
     (r = Raise KeyboardInterrupt
      ∧ (interrupted_poll cfg f0 (fst (print Started initial_state)) s
         ∨ main cfg [f0] = (s, None)))
     ∨ (r = Ok tt
        ∧ ∃ fs1 f fs2 s1 s2,
            fs = (fs1 ++ f :: fs2)%list
            ∧ main cfg (f0 :: fs1) = (s1, None)
            ∧ interrupted_poll cfg f s1 s2
            ∧ s = fst (print Stopped s2))).
Proof.
  intros Hfs. apply list.Forall_cons in Hfs as [Hf0 Hfs].
  unfold main_i, bind_i.
  set (s0 := fst (print Started initial_state)).
  assert (H0 : tracker_inv s0).
  { split; [constructor|]. intros r Hr. inversion Hr. }
  pose proof (check_new_tokens_under_clock cfg f0 c s0) as Hfirst.
  destruct (check_new_tokens_i cfg f0 c s0) as [[s1 r1] c0].
  destruct Hfirst as [(Harr & -> & HQ)|(Hq0 & Hrun)].
  { destruct (interrupted_poll_extends _ _ _ _ HQ) as (_ & _ & Hinv).
    split_and!; [by apply Hinv| |left; split; [done|by left]].
    intros Hquiet. destruct Harr as [Hc ->].
    unfold quiet, is_Some in *. naive_solver. }
  assert (Hnone : escaping r1 = None).
  { rewrite (check_new_tokens_escape cfg f0 s0) in Hrun.
    destruct f0 as [e|data]; simpl in Hf0; [rewrite Hf0 in Hrun|];
      by inversion Hrun. }
  destruct (escaping_None _ Hnone) as [[] ->]. simpl in Hrun.
  assert (H1 : tracker_inv s1).
  { pose proof (tracker_inv_check_new_tokens cfg f0 s0 H0) as H.
    by rewrite Hrun in H. }
  assert (Hmain : ∀ fs' s2, poll_loop cfg fs' s1 = (s2, None) ->
                            main cfg (f0 :: fs') = (s2, None)).
  { intros fs' s2 Hloop. unfold main. fold s0. by rewrite Hrun, Hloop. }
  destruct (stmt_cases (ret tt) c0 s1) as [[-> Harr]|(c1 & -> & Hq1)].
  { split_and!; [done| |].
    - intros Hquiet. destruct Harr as [Hc0 _].
      unfold quiet, is_Some in *. naive_solver.
    - intros _. left. split; [done|]. right. by apply Hmain. }
  simpl.
  assert (Hq : quiet c c1) by (by eapply quiet_trans).
  pose proof (poll_loop_under_clock cfg fs c1 s1) as Hloop.
  destruct (poll_loop_i cfg fs c1 s1) as [[s2 r2] c2].
  destruct Hloop as [(Harr & -> & fs1 & f & fs2 & s3 & -> & Hfs1 & HQ)
                    |(Hq2 & Hrest)].
  - destruct Harr as [Hc1 ->]. simpl.
    destruct (interrupted_poll_extends _ _ _ _ HQ) as (_ & _ & Hinv).
    pose proof (tracker_inv_poll_loop cfg fs1 s1 H1) as H3.
    rewrite Hfs1 in H3. simpl in H3.
    split_and!.
    + apply (tracker_inv_print Stopped); [done|]. by apply Hinv.
    + intros Hquiet. unfold quiet, is_Some in *. naive_solver.
    + intros _. right. split; [done|].
      exists fs1, f, fs2, s3, s2. split_and!; [done|by apply Hmain|done|done].
  - assert (Hnone2 : escaping r2 = None).
    { pose proof (poll_loop_contained cfg fs s1 Hfs) as H.
      by rewrite Hrest in H. }
    destruct (escaping_None _ Hnone2) as [[] ->]. simpl in Hrest.
    pose proof (tracker_inv_poll_loop cfg fs s1 H1) as H2.
    rewrite Hrest in H2. simpl in H2.
    split_and!; [done| |].
    + intros _. split; [done|]. by apply Hmain.
    + intros [Hc ->]. unfold quiet, is_Some in *. naive_solver.
Qed.

(** The interrupt arrives in the third poll, when three lines of the
    report of 0xd are written. *)
Lemma interrupt_at_any_statement_witness :
  let fs := [FetchRaises Timeout; listing [pair_bare]] in
  let '(s, r, c') := main_i default_config (listing [pair_a] :: fs)
                       (Some 35%nat) in
  tracker_inv s
  ∧ (quiet (Some 35%nat) c' ->
     r = Ok tt ∧ main default_config (listing [pair_a] :: fs) = (s, None))
  ∧ (arrived (Some 35%nat) c' ->
     (r = Raise KeyboardInterrupt
      ∧ (interrupted_poll default_config (listing [pair_a])
           (fst (print Started initial_state)) s
         ∨ main default_config [listing [pair_a]] = (s, None)))
     ∨ (r = Ok tt
        ∧ ∃ fs1 f fs2 s1 s2,
            fs = (fs1 ++ f :: fs2)%list
            ∧ main default_config (listing [pair_a] :: fs1) = (s1, None)
            ∧ interrupted_poll default_config f s1 s2
            ∧ s = fst (print Stopped s2))).
Proof.
  intros fs.
  apply (interrupt_at_any_statement default_config (listing [pair_a]) fs
           (Some 35%nat)).
  repeat constructor.
Defined.

Example an_interrupted_run :
  ∃ ra rd,
    stdout (main_i default_config
              [listing [pair_a]; FetchRaises Timeout; listing [pair_bare]]
              (Some 35%nat)).1.1
    = [Started; NewToken ra; ErrorFetching Timeout; Unfinished rd 3; Stopped].
Proof. do 2 eexists. vm_compute. reflexivity. Qed.
